(** * FlashPay: the ledger store, the guard layer and the payment operations

    A shallow embedding of
    - [lib/unified-store.ts]  (class [UnifiedStateStore]),
    - the security layer      ([RateLimiter], [InputValidator], [ErrorTracker],
                               [AuditLogger], [SecurityGuard]),
    - the operations layer    ([createPayment]),
    and the properties of the specification that these decide.

    Conventions of the embedding.
    - A [Date] the code makes with [new Date()] is its epoch time in
      milliseconds, a [Z]; a date the code makes from a caller's text
      ([createdAt]) is a [JsDate.t], which can be an Invalid Date.
    - A [string] stands for the JavaScript string with the same characters,
      each one a UTF-16 code unit below 256, so that [String.length] is the
      string's [length]; a text whose characters the code inspects ([trim])
      is a [JsString.t], any sequence of code units.
    - Every method of a store object takes the object's fields as an explicit
      record and returns the new record next to its result.
    - Values the code draws from the environment ([Date.now()],
      [Math.random()], the HTTP reply of the payment backend) are arguments.
    - The [_owner] section of the state is a cache that
      [updateOwnerAnalytics] recomputes from the payment list; no operation
      below reads it, and the state record leaves it out.
    - A JavaScript number that is only stored and added up is an element of
      an abstract type [Num]; where the code prints a number
      ([validateAmount]) it is a [JsNumber.t], the decimal that
      [Number.prototype.toString] prints.
    - [CoreLogger] and [console] output is not state and is not modelled. *)

From Stdlib Require Import ZArith QArith List String Ascii Lia Bool.
From Stdlib Require Import DecimalString Sorted Permutation.
From stdpp Require Import gmap strings list.

Import ListNotations.
Local Open Scope string_scope.
Local Open Scope Z_scope.

(** ** Dates

    A [Date] object holds a time value: an epoch time in milliseconds, or
    [NaN].  The latter is an Invalid Date, what [new Date(text)] makes of a
    text that the engine does not read as a date. *)
Module JsDate.

Inductive t :=
| At (ms : Z)
| Invalid.

(** [d.getTime()]; [None] is [NaN]. *)
Definition getTime (d : t) : option Z :=
  match d with
  | At ms => Some ms
  | Invalid => None
  end.

Definition isValid (d : t) : bool :=
  match d with
  | At _ => true
  | Invalid => false
  end.

End JsDate.

Coercion JsDate.At : Z >-> JsDate.t.

(** ** Payments ([lib/types.ts]) *)

Inductive PaymentStatus := PENDING | PAID | FAILED | CANCELLED.

#[export] Instance PaymentStatus_eq_dec : EqDecision PaymentStatus.
Proof. solve_decision. Defined.

Definition PaymentStatus_eqb (a b : PaymentStatus) : bool :=
  match a, b with
  | PENDING, PENDING | PAID, PAID | FAILED, FAILED | CANCELLED, CANCELLED => true
  | _, _ => false
  end.

Module Payment.
(** [Num] is the type of JavaScript numbers; the ledger never looks inside
    an amount, only the statistics add them up. *)
Record t {Num : Type} := mk {
  id : string;
  merchantId : string;
  amount : Num;
  note : string;
  status : PaymentStatus;
  createdAt : JsDate.t;
  paidAt : option Z;
  txid : option string
}.
Arguments t : clear implicits.
Arguments mk {Num}.
End Payment.

(** ** State types ([lib/unified-store.ts], "STATE TYPES") *)

Record UserSession := {
  isAuthenticated : bool;
  userId : option string;
  username : option string;
  lastActivity : Z;
  currentMerchantId : string
}.

Record MerchantState := {
  isSetupComplete : bool;
  merchantId : string;
  piUsername : option string;
  walletAddress : option string;
  connectedAt : option Z
}.

Record WalletStatus := {
  isConnected : bool;
  isPiSDKAvailable : bool;
  isInitialized : bool;
  lastChecked : Z
}.

Inductive Theme := light | dark.

Record UIState := {
  theme : Theme;
  sidebarOpen : bool;
  lastVisitedRoute : string
}.

Record DomainState := {
  masterEnabled : bool;
  domains : gmap string bool
}.

Record UnifiedState {Num : Type} := {
  payments : list (Payment.t Num);
  domainState : DomainState;
  merchant : MerchantState;
  session : UserSession;
  wallet : WalletStatus;
  ui : UIState;
  lastUpdated : Z;
  version : string
}.
Arguments UnifiedState : clear implicits.

(** The sections listeners subscribe to ([StateSection]). *)
Inductive StateSection :=
  SecPayments | SecDomainState | SecMerchant | SecSession | SecWallet | SecUi.

(** One round of listener calls: [notify(section)] calls the listeners of
    the section and of ["all"]; [notifyAllListeners()] calls every listener. *)
Inductive Notification :=
| Notified (section : StateSection)
| NotifiedAll.

(** ** Domains ([lib/domains.ts]) *)

Record Domain := {
  dom_id : string;
  dom_name : string;
  dom_domain : string;
  dom_routes : list string;
  dom_description : string;
  dom_enabled : bool;
  dom_isPrimary : bool
}.

Definition OPERATIONAL_DOMAINS : list Domain :=
  [ {| dom_id := "flashpay";
       dom_name := "FlashPay";
       dom_domain := "flashpay.pi";
       dom_routes := ["/"; "/create"; "/pay"; "/payments"; "/profile"];
       dom_description := "Primary payment request system";
       dom_enabled := true;
       dom_isPrimary := true |} ].

(** ** Array helpers *)

(** [Array.prototype.sort] with a comparator: a stable sort; [x] goes before
    [y] when [cmp x y <= 0].  For a comparator that is no consistent
    ordering ECMAScript leaves the order of the result to the engine; what is
    computed here is then one rearrangement among those an engine may give,
    and nothing below relies on its order. *)
Fixpoint insertBy {A} (cmp : A -> A -> Z) (x : A) (l : list A) : list A :=
  match l with
  | [] => [x]
  | y :: l' => if cmp x y <=? 0 then x :: l else y :: insertBy cmp x l'
  end.

Definition arraySort {A} (cmp : A -> A -> Z) (l : list A) : list A :=
  fold_right (insertBy cmp) [] l.

(** In-place update of the object [Array.prototype.find] returned: the first
    element that satisfies [f] is replaced by its image under [g]. *)
Fixpoint updateFirst {A} (f : A -> bool) (g : A -> A) (l : list A) : list A :=
  match l with
  | [] => []
  | x :: l' => if f x then g x :: l' else x :: updateFirst f g l'
  end.

(** [a || b] on strings: the empty string is falsy. *)
Definition orElse (a b : string) : string :=
  if String.eqb a "" then b else a.

(** ** Plain objects used as maps

    The [domains] record is a plain object with boolean own properties, made
    by [Object.fromEntries] or by [JSON.parse]; the map holds its own
    properties.  Its prototype is [Object.prototype], whose members a read
    finds for a key that is no own property. *)
Definition OBJECT_PROTOTYPE : list string :=
  [ "constructor"; "hasOwnProperty"; "isPrototypeOf"; "propertyIsEnumerable";
    "toLocaleString"; "toString"; "valueOf"; "__proto__";
    "__defineGetter__"; "__defineSetter__"; "__lookupGetter__";
    "__lookupSetter__" ].

Definition inherited (key : string) : bool :=
  existsb (String.eqb key) OBJECT_PROTOTYPE.

(** What a read [o[key]] yields when it yields anything: a stored boolean, or
    the member of [Object.prototype] of that name (a function; for
    ["__proto__"] the prototype object itself). *)
Inductive JsValue :=
| JsBool (b : bool)
| PrototypeMember (name : string).

(** [!!v] *)
Definition truthy (v : JsValue) : bool :=
  match v with
  | JsBool b => b
  | PrototypeMember _ => true
  end.

(** [o[key]]; [None] is [undefined]. *)
Definition readProperty (key : string) (o : gmap string bool) : option JsValue :=
  match o !! key with
  | Some flag => Some (JsBool flag)
  | None => if inherited key then Some (PrototypeMember key) else None
  end.

(** [o[key] = value]: the own property is made or updated, except for the
    key ["__proto__"] when it is no own property: the setter inherited from
    [Object.prototype] runs instead, and it ignores a boolean. *)
Definition assignProperty (key : string) (value : bool) (o : gmap string bool)
    : gmap string bool :=
  match o !! key with
  | Some _ => <[key := value]> o
  | None => if String.eqb key "__proto__" then o else <[key := value]> o
  end.

(** [Object.fromEntries]: every entry becomes an own property, and a later
    entry for a key replaces an earlier one. *)
Definition fromEntries {V} (entries : list (string * V)) : gmap string V :=
  fold_left (fun m kv => <[fst kv := snd kv]> m) entries ∅.

(** ** Number arithmetic

    The arithmetic of JavaScript numbers the statistics use: the literals
    ([jsOfNat], also for an array's [length]), [+], [*] and [/]. *)
Class JsArith (Num : Type) := {
  jsOfNat : nat -> Num;
  jsAdd : Num -> Num -> Num;
  jsMul : Num -> Num -> Num;
  jsDiv : Num -> Num -> Num
}.

(** Exact rational arithmetic; it agrees with IEEE-754 doubles wherever the
    double operations are exact. *)
#[export] Instance JsArith_Q : JsArith Q := {
  jsOfNat n := inject_Z (Z.of_nat n);
  jsAdd := Qplus;
  jsMul := Qmult;
  jsDiv := Qdiv
}.

(** ** Exceptions *)

(** A thrown value: an [Error] object with its message, or anything else. *)
Inductive Thrown :=
| JsError (message : string)
| NonError.

(** [error instanceof Error ? error.message : fallback] *)
Definition messageOr (fallback : string) (thrown : Thrown) : string :=
  match thrown with
  | JsError message => message
  | NonError => fallback
  end.

(** ** The unified store *)

Module Store.
Section WithNum.
Context {Num : Type}.

Abbreviation Payment := (Payment.t Num).
Abbreviation State := (UnifiedState Num).

(** The fields of a [UnifiedStateStore] object.  [savePending] is the armed
    [saveTimeout] of the debounced [saveToStorage]; [notified] is the trace
    of the listener rounds, latest first. *)
Record t := mk {
  state : State;
  processingLocks : gset string;
  savePending : bool;
  notified : list Notification
}.

Definition withState (st : t) (s : State) : t :=
  {| state := s; processingLocks := processingLocks st;
     savePending := savePending st; notified := notified st |}.

Definition withPayments (st : t) (ps : list Payment) : t :=
  withState st
    {| payments := ps;
       domainState := domainState (state st);
       merchant := merchant (state st);
       session := session (state st);
       wallet := wallet (state st);
       ui := ui (state st);
       lastUpdated := lastUpdated (state st);
       version := version (state st) |}.

Definition withDomainState (st : t) (d : DomainState) : t :=
  withState st
    {| payments := payments (state st);
       domainState := d;
       merchant := merchant (state st);
       session := session (state st);
       wallet := wallet (state st);
       ui := ui (state st);
       lastUpdated := lastUpdated (state st);
       version := version (state st) |}.

Definition withLocks (st : t) (locks : gset string) : t :=
  {| state := state st; processingLocks := locks;
     savePending := savePending st; notified := notified st |}.

(** [saveToStorage]: (re)arms the 100 ms timer. *)
Definition saveToStorage (st : t) : t :=
  {| state := state st; processingLocks := processingLocks st;
     savePending := true; notified := notified st |}.

(** The timer firing: stamps [lastUpdated] and writes the two buckets. *)
Definition flushSave (now : Z) (st : t) : t :=
  if savePending st then
    {| state :=
         {| payments := payments (state st);
            domainState := domainState (state st);
            merchant := merchant (state st);
            session := session (state st);
            wallet := wallet (state st);
            ui := ui (state st);
            lastUpdated := now;
            version := version (state st) |};
       processingLocks := processingLocks st;
       savePending := false;
       notified := notified st |}
  else st.

Definition notify (sec : StateSection) (st : t) : t :=
  {| state := state st; processingLocks := processingLocks st;
     savePending := savePending st; notified := Notified sec :: notified st |}.

Definition notifyAllListeners (st : t) : t :=
  {| state := state st; processingLocks := processingLocks st;
     savePending := savePending st;
     notified := NotifiedAll :: notified st |}.

(** [this.state.session.currentMerchantId || this.state.merchant.merchantId] *)
Definition currentMerchant (st : t) : string :=
  orElse (currentMerchantId (session (state st)))
         (merchantId (merchant (state st))).

(** *** Payments (merchant-scoped) *)

Definition hasId (i : string) (p : Payment) : bool :=
  String.eqb (Payment.id p) i.

Definition ownedBy (m : string) (p : Payment) : bool :=
  String.eqb (Payment.merchantId p) m.

(** [createPayment(amount, note)]; [now] is the clock, read as one value by
    the [Date.now()] and [new Date()] of the call, and [rnd] the nine
    characters taken from [Math.random()]. *)
Definition createPayment (now : Z) (rnd : string) (amount : Num)
    (note : string) (st : t) : (Thrown + Payment) * t :=
  let lockKey := "create-" ++ NilZero.string_of_int (Z.to_int now) in
  if decide (lockKey ∈ processingLocks st) then
    (inl (JsError "Payment creation already in progress"), st)
  else
    let st1 := withLocks st ({[lockKey]} ∪ processingLocks st) in
    let payment :=
      Payment.mk (NilZero.string_of_int (Z.to_int now) ++ "-" ++ rnd)
                 (currentMerchant st1) amount note PENDING now None None in
    let st2 := withPayments st1 (payment :: payments (state st1)) in
    let st3 := notify SecPayments (saveToStorage st2) in
    (inr payment, withLocks st3 (processingLocks st3 ∖ {[lockKey]})).

(** [createPaymentWithId(id, amount, note, createdAt)]; [createdAt] is the
    date [new Date(createdAt)] makes of the text passed in. *)
Definition createPaymentWithId (id : string) (amount : Num) (note : string)
    (createdAt : JsDate.t) (st : t) : (Thrown + Payment) * t :=
  let lockKey := "create-" ++ id in
  if decide (lockKey ∈ processingLocks st) then
    (inl (JsError "Payment creation already in progress"), st)
  else
    let st1 := withLocks st ({[lockKey]} ∪ processingLocks st) in
    let payment :=
      Payment.mk id (currentMerchant st1) amount note PENDING createdAt
                 None None in
    let st2 := withPayments st1 (payment :: payments (state st1)) in
    let st3 := notify SecPayments (saveToStorage st2) in
    (inr payment, withLocks st3 (processingLocks st3 ∖ {[lockKey]})).

Definition addPayment (payment : Payment) (st : t) : t :=
  match List.find (hasId (Payment.id payment)) (payments (state st)) with
  | Some _ => st
  | None =>
      notify SecPayments
        (saveToStorage (withPayments st (payment :: payments (state st))))
  end.

Definition getPayment (id : string) (st : t) : option Payment :=
  let currentMerchantId := currentMerchant st in
  match List.find (hasId id) (payments (state st)) with
  | Some payment =>
      if negb (ownedBy currentMerchantId payment) then None else Some payment
  | None => None
  end.

(** The comparator [(a, b) => b.createdAt.getTime() - a.createdAt.getTime()].
    The difference is [NaN] when one of the dates is invalid, and
    [Array.prototype.sort] takes a [NaN] from its comparator for [+0]. *)
Definition byCreatedAtDesc (a b : Payment) : Z :=
  match JsDate.getTime (Payment.createdAt b),
        JsDate.getTime (Payment.createdAt a) with
  | Some tb, Some ta => tb - ta
  | _, _ => 0
  end.

(** The record was created at a valid date. *)
Definition dated (p : Payment) : bool :=
  JsDate.isValid (Payment.createdAt p).

(** [a] may stand before [b] in a listing with the newest first: both have
    a creation time, and that of [a] is not the earlier one. *)
Definition newerFirst (a b : Payment) : Prop :=
  match Payment.createdAt a, Payment.createdAt b with
  | JsDate.At ta, JsDate.At tb => tb <= ta
  | _, _ => False
  end.

Definition getAllPayments (st : t) : list Payment :=
  arraySort byCreatedAtDesc
    (List.filter (ownedBy (currentMerchant st)) (payments (state st))).

(** The assignments [payment.status = status], and on [PAID] also
    [payment.paidAt = new Date()] and [payment.txid = txid]. *)
Definition transition (now : Z) (status : PaymentStatus)
    (txid : option string) (p : Payment) : Payment :=
  match status with
  | PAID =>
      Payment.mk (Payment.id p) (Payment.merchantId p) (Payment.amount p)
                 (Payment.note p) PAID (Payment.createdAt p) (Some now) txid
  | _ =>
      Payment.mk (Payment.id p) (Payment.merchantId p) (Payment.amount p)
                 (Payment.note p) status (Payment.createdAt p)
                 (Payment.paidAt p) (Payment.txid p)
  end.

Definition updatePaymentStatus (now : Z) (id : string)
    (status : PaymentStatus) (txid : option string) (st : t) : bool * t :=
  match getPayment id st with
  | None => (false, st)
  | Some payment =>
      if PaymentStatus_eqb (Payment.status payment) PAID then (false, st)
      else
        let st1 :=
          withPayments st
            (updateFirst (hasId id) (transition now status txid)
                         (payments (state st))) in
        (true, notify SecPayments (saveToStorage st1))
  end.

(** The members of a record that a status update does not assign. *)
Definition identity (p : Payment)
    : string * string * Num * string * JsDate.t :=
  (Payment.id p, Payment.merchantId p, Payment.amount p, Payment.note p,
   Payment.createdAt p).

Definition clearAllPayments (st : t) : t :=
  let currentMerchantId := currentMerchant st in
  notify SecPayments
    (saveToStorage
       (withPayments st
          (List.filter (fun p => negb (ownedBy currentMerchantId p))
                       (payments (state st))))).

Record PaymentStats := {
  totalPayments : nat;
  paidPayments : nat;
  pendingPayments : nat;
  failedPayments : nat;
  cancelledPayments : nat;
  totalAmount : Num;
  conversionRate : Num
}.

Definition hasStatus (s : PaymentStatus) (p : Payment) : bool :=
  PaymentStatus_eqb (Payment.status p) s.

Definition getPaymentStats `{JsArith Num} (st : t) : PaymentStats :=
  let currentMerchantId := currentMerchant st in
  let all := List.filter (ownedBy currentMerchantId) (payments (state st)) in
  let paid := List.filter (hasStatus PAID) all in
  let pending := List.filter (hasStatus PENDING) all in
  let failed := List.filter (hasStatus FAILED) all in
  let cancelled := List.filter (hasStatus CANCELLED) all in
  let totalAmount :=
    fold_left (fun sum p => jsAdd sum (Payment.amount p)) paid (jsOfNat 0) in
  let conversionRate :=
    if (0 <? length all)%nat
    then jsMul (jsDiv (jsOfNat (length paid)) (jsOfNat (length all)))
               (jsOfNat 100)
    else jsOfNat 0 in
  {| totalPayments := length all;
     paidPayments := length paid;
     pendingPayments := length pending;
     failedPayments := length failed;
     cancelledPayments := length cancelled;
     totalAmount := totalAmount;
     conversionRate := conversionRate |}.

(** What the statistics are to report, in the words of the specification:
    the number of stored records of merchant [m] that are in status [s], and
    the amounts of its [PAID] records added up, in stored order, from [0]. *)
Definition countOf (m : string) (s : PaymentStatus) (l : list Payment) : nat :=
  length
    (List.filter
       (fun p => bool_decide (Payment.merchantId p = m /\ Payment.status p = s))
       l).

Definition paidSum `{JsArith Num} (m : string) (l : list Payment) : Num :=
  fold_left jsAdd
    (List.map Payment.amount
       (List.filter
          (fun p => bool_decide (Payment.merchantId p = m /\ Payment.status p = PAID))
          l))
    (jsOfNat 0).

(** *** Domains *)

Definition isMasterEnabled (st : t) : bool :=
  masterEnabled (domainState (state st)).

Definition setMasterEnabled (enabled : bool) (st : t) : t :=
  notify SecDomainState
    (saveToStorage
       (withDomainState st
          {| masterEnabled := enabled;
             domains := domains (domainState (state st)) |})).

(** [this.state.domainState.domains[domainId] ?? false]: declared to return
    a boolean, it returns whatever the read finds, and [false] for
    [undefined]. *)
Definition isDomainEnabled (domainId : string) (st : t) : JsValue :=
  default (JsBool false)
          (readProperty domainId (domains (domainState (state st)))).

Definition setDomainEnabled (domainId : string) (enabled : bool) (st : t)
    : bool * t :=
  if negb (masterEnabled (domainState (state st))) then (false, st)
  else
    (true,
     notify SecDomainState
       (saveToStorage
          (withDomainState st
             {| masterEnabled := masterEnabled (domainState (state st));
                domains :=
                  assignProperty domainId enabled
                    (domains (domainState (state st))) |}))).

(** *** Cross-tab synchronisation *)

(** [event.newValue]: absent ([null] or the empty string), a text on which
    the [try] block throws ([JSON.parse] rejects it, or a section the
    listener revives is missing), or a snapshot, given as the state the
    listener makes of it (its dates revived with [new Date(...)]). *)
Inductive NewValue :=
| NoValue
| Malformed
| Snapshot (newState : State).

Record StorageEvent := {
  key : string;
  newValue : NewValue
}.

Definition STORAGE_KEY : string := "flashpay_unified_state".

(** The ["storage"] listener installed by [setupCrossTabSync]. *)
Definition onStorage (event : StorageEvent) (st : t) : t :=
  if String.eqb (key event) STORAGE_KEY then
    match newValue event with
    | NoValue => st
    | Malformed => st
    | Snapshot newState =>
        if lastUpdated newState >? lastUpdated (state st) then
          notifyAllListeners (withState st newState)
        else st
    end
  else st.

(** The notification that carries snapshot [S] under the store's key. *)
Definition snapshotEvent (S : State) : StorageEvent :=
  {| key := STORAGE_KEY; newValue := Snapshot S |}.

(** *** Default state and construction *)

(** [DEFAULT_STATE]; [now] is the clock, [generated] the result of
    [generateMerchantId()] and [piAvailable] whether [window.Pi] exists,
    all three read when the module is loaded. *)
Definition DEFAULT_STATE (now : Z) (generated : string) (piAvailable : bool)
    : State :=
  {| payments := [];
     domainState :=
       {| masterEnabled := false;
          domains :=
            fromEntries
              (List.map (fun d => (dom_id d, dom_enabled d)) OPERATIONAL_DOMAINS) |};
     merchant :=
       {| isSetupComplete := false;
          merchantId := generated;
          piUsername := None;
          walletAddress := None;
          connectedAt := None |};
     session :=
       {| isAuthenticated := false;
          userId := None;
          username := None;
          lastActivity := now;
          currentMerchantId := "" |};
     wallet :=
       {| isConnected := false;
          isPiSDKAvailable := piAvailable;
          isInitialized := false;
          lastChecked := now |};
     ui := {| theme := light; sidebarOpen := false; lastVisitedRoute := "/" |};
     lastUpdated := now;
     version := "1.0.0" |}.

(** A store object right after construction with nothing in storage. *)
Definition fresh (now : Z) (generated : string) (piAvailable : bool) : t :=
  {| state := DEFAULT_STATE now generated piAvailable;
     processingLocks := ∅;
     savePending := false;
     notified := [] |}.

(** *** Session, wallet and merchant setup *)

(** A [Partial<UserSession>]: the members an update carries.  A
    [lastActivity] in the update is overwritten by the call and left out. *)
Record SessionUpdates := {
  new_isAuthenticated : option bool;
  new_userId : option string;
  new_username : option string;
  new_currentMerchantId : option string
}.

Record WalletUpdates := {
  new_isConnected : option bool;
  new_isPiSDKAvailable : option bool;
  new_isInitialized : option bool;
  new_lastChecked : option Z
}.

Record MerchantUpdates := {
  new_isSetupComplete : option bool;
  new_merchantId : option string;
  new_piUsername : option string;
  new_walletAddress : option string;
  new_connectedAt : option Z
}.

Record UIUpdates := {
  new_theme : option Theme;
  new_sidebarOpen : option bool;
  new_lastVisitedRoute : option string
}.

Definition withSession (st : t) (s : UserSession) : t :=
  withState st
    {| payments := payments (state st);
       domainState := domainState (state st);
       merchant := merchant (state st);
       session := s;
       wallet := wallet (state st);
       ui := ui (state st);
       lastUpdated := lastUpdated (state st);
       version := version (state st) |}.

Definition withWallet (st : t) (w : WalletStatus) : t :=
  withState st
    {| payments := payments (state st);
       domainState := domainState (state st);
       merchant := merchant (state st);
       session := session (state st);
       wallet := w;
       ui := ui (state st);
       lastUpdated := lastUpdated (state st);
       version := version (state st) |}.

Definition withMerchant (st : t) (m : MerchantState) : t :=
  withState st
    {| payments := payments (state st);
       domainState := domainState (state st);
       merchant := m;
       session := session (state st);
       wallet := wallet (state st);
       ui := ui (state st);
       lastUpdated := lastUpdated (state st);
       version := version (state st) |}.

Definition withUi (st : t) (u : UIState) : t :=
  withState st
    {| payments := payments (state st);
       domainState := domainState (state st);
       merchant := merchant (state st);
       session := session (state st);
       wallet := wallet (state st);
       ui := u;
       lastUpdated := lastUpdated (state st);
       version := version (state st) |}.

(** [{ ...old, ...updates }] on one optional member. *)
Definition overrideOpt {A} (old : option A) (new : option A) : option A :=
  match new with
  | Some a => Some a
  | None => old
  end.

Definition updateSession (now : Z) (updates : SessionUpdates) (st : t) : t :=
  let old := session (state st) in
  notify SecSession
    (saveToStorage
       (withSession st
          {| isAuthenticated :=
               default (isAuthenticated old) (new_isAuthenticated updates);
             userId := overrideOpt (userId old) (new_userId updates);
             username := overrideOpt (username old) (new_username updates);
             lastActivity := now;
             currentMerchantId :=
               default (currentMerchantId old) (new_currentMerchantId updates) |})).

Definition getSession (st : t) : UserSession := session (state st).

Definition updateWalletStatus (updates : WalletUpdates) (st : t) : t :=
  let old := wallet (state st) in
  notify SecWallet
    (saveToStorage
       (withWallet st
          {| isConnected := default (isConnected old) (new_isConnected updates);
             isPiSDKAvailable :=
               default (isPiSDKAvailable old) (new_isPiSDKAvailable updates);
             isInitialized :=
               default (isInitialized old) (new_isInitialized updates);
             lastChecked := default (lastChecked old) (new_lastChecked updates) |})).

Definition getWalletStatus (st : t) : WalletStatus := wallet (state st).

Definition updateUIState (updates : UIUpdates) (st : t) : t :=
  let old := ui (state st) in
  notify SecUi
    (saveToStorage
       (withUi st
          {| theme := default (theme old) (new_theme updates);
             sidebarOpen := default (sidebarOpen old) (new_sidebarOpen updates);
             lastVisitedRoute :=
               default (lastVisitedRoute old) (new_lastVisitedRoute updates) |})).

Definition updateMerchantState (updates : MerchantUpdates) (st : t) : t :=
  let old := merchant (state st) in
  notify SecMerchant
    (saveToStorage
       (withMerchant st
          {| isSetupComplete :=
               default (isSetupComplete old) (new_isSetupComplete updates);
             merchantId := default (merchantId old) (new_merchantId updates);
             piUsername := overrideOpt (piUsername old) (new_piUsername updates);
             walletAddress :=
               overrideOpt (walletAddress old) (new_walletAddress updates);
             connectedAt :=
               overrideOpt (connectedAt old) (new_connectedAt updates) |})).

(** [resetState()]: the state becomes a shallow copy of [DEFAULT_STATE].
    That module-level object is not constant: a store constructed with
    nothing in storage shares its sections with it (the payment array and
    the domain record among them), so that what it holds depends on the
    calls made before.  What it holds when the call runs is the argument
    [defaults]. *)
Definition resetState (defaults : State) (st : t) : t :=
  notifyAllListeners (saveToStorage (withState st defaults)).

Definition completeMerchantSetup (now : Z) (piUsername : string)
    (walletAddress : option string) (st : t) : t :=
  let merchantId := merchantId (merchant (state st)) in
  let st1 :=
    withMerchant st
      {| isSetupComplete := true;
         merchantId := merchantId;
         piUsername := Some piUsername;
         walletAddress := walletAddress;
         connectedAt := Some now |} in
  let old := session (state st1) in
  let st2 :=
    withSession st1
      {| isAuthenticated := isAuthenticated old;
         userId := userId old;
         username := username old;
         lastActivity := lastActivity old;
         currentMerchantId := merchantId |} in
  notify SecMerchant (saveToStorage st2).

(** *** Persistence *)

(** What [JSON.parse] makes of a [localStorage] item: a state snapshot, a
    merchant's payment list, or text that is neither (also text that does
    not parse).  A date is written as its ISO text and revived with
    [new Date(...)], a number as its decimal text: the value read is the
    value written for every valid date and every finite number, and the
    items are taken to hold such values only. *)
Inductive Item :=
| StateJson (s : State)
| PaymentsJson (ps : list Payment)
| Garbage.

Definition getMerchantStorageKey (merchantId : string) : string :=
  "flashpay_merchant_" ++ merchantId ++ "_data".

(** How many [setItem] calls of the save succeed before one throws. *)
Inductive Quota := Room | FullAfterSnapshot | Full.

(** The body of the [setTimeout] callback of [saveToStorage], run when the
    armed timer fires at time [now]. *)
Definition runSaveTimer (now : Z) (quota : Quota) (storage : gmap string Item)
    (st : t) : gmap string Item * t :=
  if savePending st then
    let st1 := flushSave now st in
    let globalState :=
      {| payments := [];
         domainState := domainState (state st1);
         merchant := merchant (state st1);
         session := session (state st1);
         wallet := wallet (state st1);
         ui := ui (state st1);
         lastUpdated := lastUpdated (state st1);
         version := version (state st1) |} in
    let merchantId := merchantId (merchant (state st1)) in
    let merchantPayments :=
      List.filter (ownedBy merchantId) (payments (state st1)) in
    match quota with
    | Full => (storage, st1)
    | FullAfterSnapshot => (<[STORAGE_KEY := StateJson globalState]> storage, st1)
    | Room =>
        (<[getMerchantStorageKey merchantId := PaymentsJson merchantPayments]>
           (<[STORAGE_KEY := StateJson globalState]> storage),
         st1)
    end
  else (storage, st).



(** *** Sequences of calls *)

(** One call on the store object, with what the call draws from its
    environment: the public methods that assign to the object, the browser
    calling the ["storage"] listener ([StorageNotification]) and the armed
    save timer firing ([SaveTimer]).  The other public methods read the
    state, manage the listener sets ([subscribe]) or touch the owner's data
    only ([authenticateOwner]). *)
Inductive Call :=
| CreatePayment (now : Z) (rnd : string) (amount : Num) (note : string)
| CreatePaymentWithId (id : string) (amount : Num) (note : string)
                      (createdAt : JsDate.t)
| AddPayment (payment : Payment)
| UpdatePaymentStatus (now : Z) (id : string) (status : PaymentStatus)
                      (txid : option string)
| ClearAllPayments
| SetMasterEnabled (enabled : bool)
| SetDomainEnabled (domainId : string) (enabled : bool)
| UpdateSession (now : Z) (updates : SessionUpdates)
| UpdateWalletStatus (updates : WalletUpdates)
| UpdateUIState (updates : UIUpdates)
| UpdateMerchantState (updates : MerchantUpdates)
| CompleteMerchantSetup (now : Z) (piUsername : string)
                        (walletAddress : option string)
| ResetState (defaults : State)
| StorageNotification (event : StorageEvent)
| SaveTimer (now : Z).

(** The store object after the call (a throwing call leaves it as the
    method left it when it threw). *)
Definition call (c : Call) (st : t) : t :=
  match c with
  | CreatePayment now rnd amount note => snd (createPayment now rnd amount note st)
  | CreatePaymentWithId id amount note createdAt =>
      snd (createPaymentWithId id amount note createdAt st)
  | AddPayment payment => addPayment payment st
  | UpdatePaymentStatus now id status txid =>
      snd (updatePaymentStatus now id status txid st)
  | ClearAllPayments => clearAllPayments st
  | SetMasterEnabled enabled => setMasterEnabled enabled st
  | SetDomainEnabled domainId enabled => snd (setDomainEnabled domainId enabled st)
  | UpdateSession now updates => updateSession now updates st
  | UpdateWalletStatus updates => updateWalletStatus updates st
  | UpdateUIState updates => updateUIState updates st
  | UpdateMerchantState updates => updateMerchantState updates st
  | CompleteMerchantSetup now piUsername walletAddress =>
      completeMerchantSetup now piUsername walletAddress st
  | ResetState defaults => resetState defaults st
  | StorageNotification event => onStorage event st
  | SaveTimer now => flushSave now st
  end.

Definition run (calls : list Call) (st : t) : t :=
  fold_left (fun st c => call c st) calls st.

(** Calls that assign a new payment list. *)
Definition replacesPayments (c : Call) : bool :=
  match c with
  | ClearAllPayments | ResetState _ | StorageNotification _ => true
  | _ => false
  end.

End WithNum.
Arguments t : clear implicits.
Arguments PaymentStats : clear implicits.
Arguments Call : clear implicits.
Arguments Item : clear implicits.
End Store.

(** ** JavaScript strings *)

(** [s.split(sep)] for a one-character separator. *)
Fixpoint split (sep : ascii) (s : string) : list string :=
  match s with
  | EmptyString => [""]
  | String c rest =>
      if Ascii.eqb c sep then "" :: split sep rest
      else match split sep rest with
           | [] => [String c ""]
           | h :: t => String c h :: t
           end
  end.

(** [hay.includes(needle)] *)
Fixpoint includes (needle hay : string) : bool :=
  if String.prefix needle hay then true
  else match hay with
       | EmptyString => false
       | String _ rest => includes needle rest
       end.

(** No character of [s] is the decimal point. *)
Fixpoint noDot (s : string) : bool :=
  match s with
  | EmptyString => true
  | String c rest => negb (Ascii.eqb c ".") && noDot rest
  end.

(** [n] characters ["0"]. *)
Fixpoint zeros (n : nat) : string :=
  match n with
  | O => ""
  | S n' => String "0" (zeros n')
  end.

(** The decimal numeral of an integer, as [String(n)] prints it. *)
Definition showZ (n : Z) : string := NilZero.string_of_int (Z.to_int n).

(** ** JavaScript numbers

    A number is [NaN], an infinity, a zero, or a finite non-zero value
    written [s * 10^e] with [s] a positive integer.  For a double this is the
    decimal ECMAScript's [Number::toString] starts from: the shortest digit
    string [s] that reads back as the same double, which has no trailing
    zero ([canonical]). *)
Module JsNumber.

Inductive t :=
| NaN
| Infinity (negative : bool)
| Zero (negative : bool)
| Decimal (negative : bool) (s : positive) (e : Z).

Definition canonical (x : t) : bool :=
  match x with
  | Decimal _ s _ => negb (Z.pos s mod 10 =? 0)
  | _ => true
  end.

Definition isNaN (x : t) : bool :=
  match x with NaN => true | _ => false end.

Definition isFinite (x : t) : bool :=
  match x with NaN | Infinity _ => false | _ => true end.

(** The order between a number and an integer constant; [None] when the
    number is [NaN], for which every comparison is false. *)
Definition compareZ (x : t) (c : Z) : option comparison :=
  match x with
  | NaN => None
  | Infinity negative => Some (if negative then Lt else Gt)
  | Zero _ => Some (0 ?= c)
  | Decimal negative s e =>
      let v := if negative then Z.neg s else Z.pos s in
      Some (if 0 <=? e then v * 10 ^ e ?= c else v ?= c * 10 ^ (- e))
  end.

(** [x <= c] *)
Definition le (x : t) (c : Z) : bool :=
  match compareZ x c with
  | Some Lt | Some Eq => true
  | _ => false
  end.

(** [x > c] *)
Definition gt (x : t) (c : Z) : bool :=
  match compareZ x c with
  | Some Gt => true
  | _ => false
  end.

Definition digits (s : positive) : string :=
  NilEmpty.string_of_uint (Pos.to_uint s).

(** [Number::toString] in radix 10 for [s * 10^e > 0]: with [k] the number
    of digits of [s] and [n = e + k], positional notation when
    [-6 < n <= 21], exponent notation otherwise. *)
Definition positiveToString (s : positive) (e : Z) : string :=
  let ds := digits s in
  let k := Z.of_nat (String.length ds) in
  let n := e + k in
  if (k <=? n) && (n <=? 21) then
    ds ++ zeros (Z.to_nat (n - k))
  else if (0 <? n) && (n <=? 21) then
    String.substring 0 (Z.to_nat n) ds ++ "." ++
    String.substring (Z.to_nat n) (Z.to_nat (k - n)) ds
  else if (-6 <? n) && (n <=? 0) then
    "0." ++ zeros (Z.to_nat (- n)) ++ ds
  else
    let sign := if n - 1 <? 0 then "-" else "+" in
    let exponent := showZ (Z.abs (n - 1)) in
    if k =? 1 then ds ++ "e" ++ sign ++ exponent
    else
      String.substring 0 1 ds ++ "." ++
      String.substring 1 (Z.to_nat (k - 1)) ds ++ "e" ++ sign ++ exponent.

Definition toString (x : t) : string :=
  match x with
  | NaN => "NaN"
  | Infinity negative => if negative then "-Infinity" else "Infinity"
  | Zero _ => "0"
  | Decimal negative s e =>
      (if negative then "-" else "") ++ positiveToString s e
  end.

(** [toString] prints the number in positional notation. *)
Definition positional (x : t) : bool :=
  match x with
  | Decimal _ s e =>
      let n := e + Z.of_nat (String.length (digits s)) in
      (-6 <? n) && (n <=? 21)
  | _ => true
  end.

(** The number of digits after the decimal point in the positional expansion
    of a canonical number: [-e] when [e < 0], none otherwise. *)
Definition fractionalDigits (x : t) : Z :=
  match x with
  | Decimal _ _ e => Z.max 0 (- e)
  | _ => 0
  end.

End JsNumber.

(** ** The security layer *)

Record OperationalFlags := {
  TESTNET_ONLY : bool;
  REQUIRE_WALLET : bool;
  REQUIRE_DOMAIN_ENABLED : bool;
  REQUIRE_MASTER_ENABLED : bool;
  ENABLE_RATE_LIMITING : bool;
  ENABLE_AUDIT_LOGGING : bool
}.

Definition OPERATIONAL_FLAGS : OperationalFlags :=
  {| TESTNET_ONLY := true;
     REQUIRE_WALLET := true;
     REQUIRE_DOMAIN_ENABLED := true;
     REQUIRE_MASTER_ENABLED := false;
     ENABLE_RATE_LIMITING := true;
     ENABLE_AUDIT_LOGGING := true |}.

(** One reading of the clock together with the nine characters taken from
    [Math.random()] (already in upper case where the code asks for it). *)
Record Draw := {
  clock : Z;
  random : string
}.

Definition generateTrackingId (d : Draw) : string :=
  "TRK-" ++ showZ (clock d) ++ "-" ++ random d.

(** [l.slice(-n)]: the last [n] elements. *)
Definition lastN {A} (n : nat) (l : list A) : list A :=
  skipn (length l - n) l.

(** [l.slice(start)]: from index [start], counted from the end when
    negative, to the end. *)
Definition sliceFrom {A} (start : Z) (l : list A) : list A :=
  let len := Z.of_nat (length l) in
  let k := if start <? 0 then Z.max (len + start) 0 else Z.min start len in
  skipn (Z.to_nat k) l.

Fixpoint dropWhile {A} (f : A -> bool) (l : list A) : list A :=
  match l with
  | [] => []
  | x :: l' => if f x then dropWhile f l' else l
  end.

(** Texts as sequences of UTF-16 code units. *)
Module JsString.

Definition t := list N.

(** The JavaScript string a [string] stands for. *)
Definition ofString (s : string) : t :=
  List.map N_of_ascii (list_ascii_of_string s).

(** The code units [trim] removes: ECMAScript's WhiteSpace (tab, vertical
    tab, form feed, U+FEFF and the space separators of Unicode) and
    LineTerminator (line feed, carriage return, U+2028, U+2029). *)
Definition isWhiteSpace (c : N) : bool :=
  (((9 <=? c) && (c <=? 13)) || (c =? 32) || (c =? 160) || (c =? 5760) ||
   ((8192 <=? c) && (c <=? 8202)) || (c =? 8232) || (c =? 8233) ||
   (c =? 8239) || (c =? 8287) || (c =? 12288) || (c =? 65279))%N.

(** [s.trim()] *)
Definition trim (s : t) : t :=
  rev (dropWhile isWhiteSpace (rev (dropWhile isWhiteSpace s))).

(** All of the text is white space (the empty text too). *)
Definition blank (s : t) : bool :=
  forallb isWhiteSpace s.

End JsString.

(** *** Rate limiting *)

Record RateLimitConfig := {
  maxAttempts : Z;
  windowMs : Z
}.

Module RateLimiter.

Record CheckResult := {
  allowed : bool;
  remainingAttempts : Z
}.

(** [check(key, config)] at time [now] on the [attempts] map. *)
Definition check (now : Z) (key : string) (config : RateLimitConfig)
    (attempts : gmap string (list Z)) : CheckResult * gmap string (list Z) :=
  if negb (ENABLE_RATE_LIMITING OPERATIONAL_FLAGS) then
    ({| allowed := true; remainingAttempts := maxAttempts config |}, attempts)
  else
    let windowStart := now - windowMs config in
    let recentAttempts :=
      List.filter (fun timestamp => timestamp >? windowStart)
                  (default [] (attempts !! key)) in
    let allowed := Z.of_nat (length recentAttempts) <? maxAttempts config in
    let recentAttempts :=
      if allowed then (recentAttempts ++ [now])%list else recentAttempts in
    let remainingAttempts :=
      Z.max 0 (maxAttempts config - Z.of_nat (length recentAttempts)) in
    ({| allowed := allowed; remainingAttempts := remainingAttempts |},
     <[key := recentAttempts]> attempts).

Definition reset (key : string) (attempts : gmap string (list Z))
    : gmap string (list Z) :=
  delete key attempts.

Definition resetAll (attempts : gmap string (list Z)) : gmap string (list Z) :=
  ∅.

(** The timestamps recorded for a key. *)
Definition recorded (key : string) (attempts : gmap string (list Z)) : list Z :=
  default [] (attempts !! key).

(** [check] called once at each of the given times, in order: the answers
    and the final map. *)
Fixpoint checks (times : list Z) (key : string) (config : RateLimitConfig)
    (attempts : gmap string (list Z)) : list bool * gmap string (list Z) :=
  match times with
  | [] => ([], attempts)
  | now :: later =>
      let '(r, attempts1) := check now key config attempts in
      let '(rs, attempts2) := checks later key config attempts1 in
      (allowed r :: rs, attempts2)
  end.

End RateLimiter.

(** *** Input validation *)

Module InputValidator.

Record Validation := {
  valid : bool;
  error : option string
}.

Definition ok : Validation := {| valid := true; error := None |}.
Definition invalid (message : string) : Validation :=
  {| valid := false; error := Some message |}.

Definition decimalPlaces (amount : JsNumber.t) : nat :=
  String.length
    (orElse (nth 1 (split "." (JsNumber.toString amount)) "") "").

(** [typeof amount !== "number"] cannot hold for a [JsNumber.t]; the first
    test is [isNaN(amount)]. *)
Definition validateAmount (amount : JsNumber.t) : Validation :=
  if JsNumber.isNaN amount then
    invalid "Amount must be a valid number"
  else if JsNumber.le amount 0 then
    invalid "Amount must be greater than zero"
  else if JsNumber.gt amount 1000000 then
    invalid "Amount exceeds maximum limit (1,000,000 Pi)"
  else if negb (JsNumber.isFinite amount) then
    invalid "Amount must be finite"
  else if (7 <? decimalPlaces amount)%nat then
    invalid "Amount cannot have more than 7 decimal places"
  else ok.

Definition validateNote (note : string) : Validation :=
  if (500 <? String.length note)%nat then
    invalid "Note cannot exceed 500 characters"
  else ok.

(** The amounts the specification admits: finite, [0 < a <= 1,000,000], at
    most 7 fractional digits. *)
Definition specValidAmount (amount : JsNumber.t) : bool :=
  JsNumber.isFinite amount && negb (JsNumber.le amount 0) &&
  negb (JsNumber.gt amount 1000000) &&
  (JsNumber.fractionalDigits amount <=? 7).

(** [validatePaymentId(id)] on any text; [typeof id !== "string"] cannot
    hold for a text. *)
Definition validatePaymentIdText (id : JsString.t) : Validation :=
  if (length (JsString.trim id) =? 0)%nat then invalid "Payment ID is required"
  else if (100 <? length id)%nat then invalid "Payment ID is invalid"
  else ok.

(** The same on the ids of the embedding. *)
Definition validatePaymentId (id : string) : Validation :=
  validatePaymentIdText (JsString.ofString id).

End InputValidator.

(** *** Error tracking *)

Record OperationError := {
  oe_trackingId : string;
  oe_timestamp : Z;
  oe_operation : string;
  oe_error : string;
  oe_details : option Thrown
}.

Module ErrorTracker.

Definition maxErrors : nat := 100.

(** [logError(operation, error, details?)]; the draw gives the tracking id
    and the entry's timestamp. *)
Definition logError (d : Draw) (operation error : string)
    (details : option Thrown) (errors : list OperationError)
    : string * list OperationError :=
  let trackingId := generateTrackingId d in
  let operationError :=
    {| oe_trackingId := trackingId;
       oe_timestamp := clock d;
       oe_operation := operation;
       oe_error := error;
       oe_details := details |} in
  let errors := (errors ++ [operationError])%list in
  (trackingId,
   if (maxErrors <? length errors)%nat then lastN maxErrors errors else errors).

(** [getRecentErrors(limit = 20)] *)
Definition getRecentErrors (limit : Z) (errors : list OperationError)
    : list OperationError :=
  rev (sliceFrom (- limit) errors).

Definition clearErrors (errors : list OperationError) : list OperationError := [].

Definition getErrorById (trackingId : string) (errors : list OperationError)
    : option OperationError :=
  List.find (fun e => String.eqb (oe_trackingId e) trackingId) errors.

End ErrorTracker.

(** *** Audit logging *)

Inductive Outcome := success_ | failure_.

Record AuditDetails := {
  ad_paymentId : string;
  ad_merchantId : string;
  ad_amount : JsNumber.t;
  ad_noteLength : nat
}.

Record AuditEntry := {
  ae_trackingId : string;
  ae_timestamp : Z;
  ae_operation : string;
  ae_userId : option string;
  ae_details : AuditDetails;
  ae_outcome : Outcome
}.

Module AuditLogger.

Definition maxEntries : nat := 200.

Definition log (d : Draw) (operation : string) (details : AuditDetails)
    (outcome : Outcome) (userId : option string) (entries : list AuditEntry)
    : string * list AuditEntry :=
  if negb (ENABLE_AUDIT_LOGGING OPERATIONAL_FLAGS) then ("", entries)
  else
    let trackingId := generateTrackingId d in
    let entry :=
      {| ae_trackingId := trackingId;
         ae_timestamp := clock d;
         ae_operation := operation;
         ae_userId := userId;
         ae_details := details;
         ae_outcome := outcome |} in
    let entries := (entries ++ [entry])%list in
    (trackingId,
     if (maxEntries <? length entries)%nat then lastN maxEntries entries
     else entries).

(** [getRecentAudits(limit = 50)] *)
Definition getRecentAudits (limit : Z) (entries : list AuditEntry)
    : list AuditEntry :=
  rev (sliceFrom (- limit) entries).

Definition getAuditById (trackingId : string) (entries : list AuditEntry)
    : option AuditEntry :=
  List.find (fun e => String.eqb (ae_trackingId e) trackingId) entries.

Definition clearAudits (entries : list AuditEntry) : list AuditEntry := [].

End AuditLogger.

(** *** Security checks *)

Record SecurityCheck := {
  passed : bool;
  reason : option string;
  sc_trackingId : string
}.

Module SecurityGuard.
Section WithStore.
Context {Num : Type}.
Variable unifiedStore : Store.t Num.

Definition checkDomainAccess (d : Draw) (domainId : string) : SecurityCheck :=
  let trackingId := generateTrackingId d in
  if negb (REQUIRE_DOMAIN_ENABLED OPERATIONAL_FLAGS) then
    {| passed := true; reason := None; sc_trackingId := trackingId |}
  else
    let enabled := Store.isDomainEnabled domainId unifiedStore in
    if negb (truthy enabled) then
      {| passed := false;
         reason :=
           Some ("This service (" ++ domainId ++
                 ") is currently disabled. Please contact support.");
         sc_trackingId := trackingId |}
    else {| passed := true; reason := None; sc_trackingId := trackingId |}.

Definition checkMasterToggle (d : Draw) : SecurityCheck :=
  let trackingId := generateTrackingId d in
  if negb (REQUIRE_MASTER_ENABLED OPERATIONAL_FLAGS) then
    {| passed := true; reason := None; sc_trackingId := trackingId |}
  else
    let masterEnabled := Store.isMasterEnabled unifiedStore in
    if negb masterEnabled then
      {| passed := false;
         reason := Some "System maintenance in progress. Please try again later.";
         sc_trackingId := trackingId |}
    else {| passed := true; reason := None; sc_trackingId := trackingId |}.

(** [preOperationCheck(operation, domainId?)]; the three draws are those of
    the check itself, of the master check and of the domain check. *)
Definition preOperationCheck (draws : Draw * Draw * Draw) (operation : string)
    (domainId : option string) : SecurityCheck :=
  let '(own, master, domain) := draws in
  let trackingId := generateTrackingId own in
  let masterCheck := checkMasterToggle master in
  if negb (passed masterCheck) then masterCheck
  else
    let domainCheck :=
      match domainId with
      | Some domainId =>
          if String.eqb domainId "" then None
          else Some (checkDomainAccess domain domainId)
      | None => None
      end in
    match domainCheck with
    | Some check =>
        if negb (passed check) then check
        else {| passed := true; reason := None; sc_trackingId := trackingId |}
    | None => {| passed := true; reason := None; sc_trackingId := trackingId |}
    end.

Definition checkWallet (d : Draw) : SecurityCheck :=
  let trackingId := generateTrackingId d in
  if negb (REQUIRE_WALLET OPERATIONAL_FLAGS) then
    {| passed := true; reason := None; sc_trackingId := trackingId |}
  else
    let wallet := Store.getWalletStatus unifiedStore in
    if negb (isPiSDKAvailable wallet) then
      {| passed := false;
         reason :=
           Some "Pi Wallet SDK is not available. Please open this app in Pi Browser.";
         sc_trackingId := trackingId |}
    else if negb (isConnected wallet) then
      {| passed := false;
         reason :=
           Some "Wallet is not connected. Please connect your Pi Wallet to continue.";
         sc_trackingId := trackingId |}
    else {| passed := true; reason := None; sc_trackingId := trackingId |}.

End WithStore.
End SecurityGuard.

(** ** The operations layer *)

Module Operations.

Abbreviation Payment := (Payment.t JsNumber.t).

Record OperationResult := {
  success : bool;
  data : option Payment;
  error : option string;
  trackingId : option string
}.

Definition RATE_LIMITS_CREATE_PAYMENT : RateLimitConfig :=
  {| maxAttempts := 10; windowMs := 60000 |}.

Definition RATE_LIMITS_EXECUTE_PAYMENT : RateLimitConfig :=
  {| maxAttempts := 5; windowMs := 60000 |}.

(** The module-level singletons the operations work on, and the browser's
    payment cache (the [localStorage] items [flashpay_payment_<id>]). *)
Record World := {
  unifiedStore : Store.t JsNumber.t;
  rateLimiter : gmap string (list Z);
  errorTracker : list OperationError;
  auditLogger : list AuditEntry;
  paymentCache : gmap string Payment
}.

(** What the payment backend answers to [POST /api/payments]; the creation
    date is given as [new Date(...)] reads its text. *)
Record ServerPayment := {
  sp_id : string;
  sp_createdAt : JsDate.t
}.

(** The body as [response.json()] reads it: not JSON (the call throws), or
    an object with or without a [payment] member. *)
Inductive Body :=
| NotJson (thrown : Thrown)
| Json (payment : option ServerPayment).

(** The outcome of [fetch]: rejected, or a response. *)
Inductive Reply :=
| Rejected (thrown : Thrown)
| Response (ok : bool) (statusText : string) (contentType : option string)
           (text : string) (body : Body).

(** The [localStorage] the cache write finds: none (there is no [window]),
    one whose [setItem] throws (no room, storage switched off), or one that
    takes the item. *)
Inductive CacheStorage :=
| NoStorage
| SetItemThrows
| Writable.

(** What one run of [createPayment] draws from its environment: the clock
    read by the rate limiter, the draws of the pre-operation check, the draw
    of the one error or audit entry the run writes, the backend's reply and
    the storage the cache write finds. *)
Record Env := {
  rateClock : Z;
  guardDraws : Draw * Draw * Draw;
  logDraw : Draw;
  reply : Reply;
  cacheStorage : CacheStorage
}.

(** The cache write after the ledger write, in its own [try]: skipped
    without a [window]; given up when [createdAt.toISOString()] throws (an
    Invalid Date) or [setItem] does. *)
Definition cachePayment (storage : CacheStorage) (payment : Payment)
    (cache : gmap string Payment) : gmap string Payment :=
  match storage, Payment.createdAt payment with
  | Writable, JsDate.At _ =>
      <["flashpay_payment_" ++ Payment.id payment := payment]> cache
  | _, _ => cache
  end.

Definition fail (error : option string) (trackingId : string) : OperationResult :=
  {| success := false; data := None; error := error;
     trackingId := Some trackingId |}.

Definition withErrors (w : World) (errors : list OperationError) : World :=
  {| unifiedStore := unifiedStore w; rateLimiter := rateLimiter w;
     errorTracker := errors; auditLogger := auditLogger w;
     paymentCache := paymentCache w |}.

Definition withRateLimiter (w : World) (attempts : gmap string (list Z)) : World :=
  {| unifiedStore := unifiedStore w; rateLimiter := attempts;
     errorTracker := errorTracker w; auditLogger := auditLogger w;
     paymentCache := paymentCache w |}.

(** The [catch] block of the inner [try]. *)
Definition caught (env : Env) (thrown : Thrown) (w : World)
    : OperationResult * World :=
  let '(trackingId, errors) :=
    ErrorTracker.logError (logDraw env) "createPayment"
      (messageOr "Unknown error" thrown) (Some thrown) (errorTracker w) in
  (fail (Some (messageOr "Failed to create payment" thrown)) trackingId,
   withErrors w errors).

(** A guard failure: logged to the error trail, returned as a result. *)
Definition denied (env : Env) (logged : string) (shown : option string)
    (w : World) : OperationResult * World :=
  let '(trackingId, errors) :=
    ErrorTracker.logError (logDraw env) "createPayment" logged None
      (errorTracker w) in
  (fail shown trackingId, withErrors w errors).

(** The body of the inner [try] up to the ledger write: the backend's
    payment, or what was thrown.  Reading [result.payment.id] of a body
    without [payment] throws a [TypeError]; its message is V8's. *)
Definition serverPayment (r : Reply) : Thrown + ServerPayment :=
  match r with
  | Rejected thrown => inl thrown
  | Response ok statusText contentType text body =>
      if negb ok then
        inl (JsError ("Failed to create payment: " ++ statusText))
      else if match contentType with
              | None => true
              | Some ct => negb (includes "application/json" ct)
              end then
        inl (JsError ("API returned non-JSON response: " ++
                      String.substring 0 100 text))
      else
        match body with
        | NotJson thrown => inl thrown
        | Json None =>
            inl (JsError "Cannot read properties of undefined (reading 'id')")
        | Json (Some payment) => inr payment
        end
  end.

Definition createPayment (env : Env) (amount : JsNumber.t) (note : string)
    (w : World) : OperationResult * World :=
  let '(rateLimitCheck, attempts) :=
    RateLimiter.check (rateClock env) "create_payment"
      RATE_LIMITS_CREATE_PAYMENT (rateLimiter w) in
  let w := withRateLimiter w attempts in
  if negb (RateLimiter.allowed rateLimitCheck) then
    denied env "Rate limit exceeded. Please wait before creating another payment."
           (Some "Too many requests. Please wait a moment.") w
  else
    let amountValidation := InputValidator.validateAmount amount in
    if negb (InputValidator.valid amountValidation) then
      denied env (default "" (InputValidator.error amountValidation))
             (InputValidator.error amountValidation) w
    else
      let noteValidation := InputValidator.validateNote note in
      if negb (InputValidator.valid noteValidation) then
        denied env (default "" (InputValidator.error noteValidation))
               (InputValidator.error noteValidation) w
      else
        let securityCheck :=
          SecurityGuard.preOperationCheck (unifiedStore w) (guardDraws env)
            "createPayment" (Some "flashpay") in
        if negb (passed securityCheck) then
          denied env
            (orElse (default "" (reason securityCheck)) "Security check failed")
            (reason securityCheck) w
        else
          match serverPayment (reply env) with
          | inl thrown => caught env thrown w
          | inr result =>
              match Store.createPaymentWithId (sp_id result) amount note
                      (sp_createdAt result) (unifiedStore w) with
              | (inl thrown, _) => caught env thrown w
              | (inr payment, store) =>
                  let cache :=
                    cachePayment (cacheStorage env) payment (paymentCache w) in
                  let '(trackingId, audits) :=
                    AuditLogger.log (logDraw env) "createPayment"
                      {| ad_paymentId := Payment.id payment;
                         ad_merchantId := Payment.merchantId payment;
                         ad_amount := amount;
                         ad_noteLength := String.length note |}
                      success_ None (auditLogger w) in
                  ({| success := true; data := Some payment; error := None;
                      trackingId := Some trackingId |},
                   {| unifiedStore := store;
                      rateLimiter := rateLimiter w;
                      errorTracker := errorTracker w;
                      auditLogger := audits;
                      paymentCache := cache |})
              end
          end.

(** The guard chain of [createPayment] lets the call through. *)
Definition guardsPass (env : Env) (amount : JsNumber.t) (note : string)
    (w : World) : bool :=
  RateLimiter.allowed
    (fst (RateLimiter.check (rateClock env) "create_payment"
            RATE_LIMITS_CREATE_PAYMENT (rateLimiter w))) &&
  InputValidator.valid (InputValidator.validateAmount amount) &&
  InputValidator.valid (InputValidator.validateNote note) &&
  passed (SecurityGuard.preOperationCheck (unifiedStore w) (guardDraws env)
            "createPayment" (Some "flashpay")).

(** The call to the payment backend fails: the request is rejected, the
    status is not OK, the content type is not JSON, the body cannot be read
    as JSON, or it carries no payment. *)
Definition providerFails (r : Reply) : bool :=
  match r with
  | Rejected _ => true
  | Response ok _ contentType _ body =>
      negb ok ||
      match contentType with
      | None => true
      | Some ct => negb (includes "application/json" ct)
      end ||
      match body with
      | Json (Some _) => false
      | _ => true
      end
  end.

(** *** Queries *)

Definition getPaymentById (id : string) (w : World) : option Payment :=
  let validation := InputValidator.validatePaymentId id in
  if negb (InputValidator.valid validation) then None
  else Store.getPayment id (unifiedStore w).

Definition getAllPayments (w : World) : list Payment :=
  Store.getAllPayments (unifiedStore w).

Definition isPaymentPaid (id : string) (w : World) : bool :=
  match Store.getPayment id (unifiedStore w) with
  | Some payment => PaymentStatus_eqb (Payment.status payment) PAID
  | None => false
  end.

Definition canRetryPayment (id : string) (w : World) : bool :=
  match Store.getPayment id (unifiedStore w) with
  | Some payment =>
      PaymentStatus_eqb (Payment.status payment) FAILED ||
      PaymentStatus_eqb (Payment.status payment) CANCELLED
  | None => false
  end.

(** *** Calls in a row *)

(** [createPayment] called once for each element, in order: the results,
    and the singletons after the last call. *)
Fixpoint createPayments (calls : list (Env * JsNumber.t * string)) (w : World)
    : list OperationResult * World :=
  match calls with
  | [] => ([], w)
  | (env, amount, note) :: later =>
      let '(result, w1) := createPayment env amount note w in
      let '(results, w2) := createPayments later w1 in
      (result :: results, w2)
  end.

End Operations.

(** ** The Pi wallet flow ([lib/pi-sdk.ts]) *)

Module PiSdk.

(** What happens when [createPiPayment] runs: the page is not in a browser,
    the SDK or its [createPayment] is missing, the SDK call throws, or the
    SDK ends the flow by one of its callbacks; [Pending] is a flow that has
    not ended (approval asked for, nothing further yet). *)
Inductive Flow :=
| NoWindow
| NoPi
| NoCreatePayment
| Throws (thrown : Thrown)
| ReadyForServerCompletion (piPaymentId txid : string)
| Cancel (piPaymentId : string)
| SdkError (message : string)
| Pending.

(** The call [createPiPayment] makes on the two callbacks it was given. *)
Inductive Outcome :=
| Success (txid : string)
| Failure (error : string) (isCancelled : bool)
| Silent.

Definition createPiPayment (flow : Flow) : Outcome :=
  match flow with
  | NoWindow => Failure "Cannot create payment - not in browser" false
  | NoPi => Failure "Pi SDK not available. Please open this in Pi Browser." false
  | NoCreatePayment =>
      Failure "Pi SDK incomplete - createPayment not available" false
  | Throws thrown => Failure (messageOr "Failed to initiate payment" thrown) false
  | ReadyForServerCompletion _ txid => Success txid
  | Cancel _ => Failure "Payment was cancelled" true
  | SdkError message => Failure (orElse message "Payment failed") false
  | Pending => Silent
  end.

End PiSdk.

(** ** Payment execution (the operations layer, [executePayment]) *)

Module Execution.

Abbreviation Payment := (Payment.t JsNumber.t).

(** The [details] object of the entries [executePayment] logs. *)
Inductive ErrorDetails :=
| NoDetails
| ForPayment (paymentId : string)
| ForOutcome (paymentId merchantId : string) (status : PaymentStatus).

Record ExecError := {
  xe_trackingId : string;
  xe_timestamp : Z;
  xe_operation : string;
  xe_error : string;
  xe_details : ErrorDetails
}.

Inductive AuditInfo :=
| Started (paymentId merchantId : string) (amount : JsNumber.t)
| Completed (paymentId txid merchantId : string) (amount : JsNumber.t)
| Ended (paymentId error : string) (status : PaymentStatus).

Record ExecAudit := {
  xa_trackingId : string;
  xa_timestamp : Z;
  xa_operation : string;
  xa_details : AuditInfo;
  xa_outcome : Outcome
}.

(** The singletons [executePayment] works on.  The two trails hold the
    entries of [createPayment] (left) and of [executePayment] (right). *)
Record World := {
  unifiedStore : Store.t JsNumber.t;
  rateLimiter : gmap string (list Z);
  errorTracker : list (OperationError + ExecError);
  auditLogger : list (AuditEntry + ExecAudit)
}.

(** [push] on a trail, then the cut to its latest [max] entries. *)
Definition pushBounded {A} (max : nat) (entry : A) (trail : list A) : list A :=
  let trail := (trail ++ [entry])%list in
  if (max <? length trail)%nat then lastN max trail else trail.

Definition logError (d : Draw) (operation error : string)
    (details : ErrorDetails) (w : World) : string * World :=
  let trackingId := generateTrackingId d in
  (trackingId,
   {| unifiedStore := unifiedStore w;
      rateLimiter := rateLimiter w;
      errorTracker :=
        pushBounded ErrorTracker.maxErrors
          (inr {| xe_trackingId := trackingId;
                  xe_timestamp := clock d;
                  xe_operation := operation;
                  xe_error := error;
                  xe_details := details |})
          (errorTracker w);
      auditLogger := auditLogger w |}).

Definition auditLog (d : Draw) (operation : string) (details : AuditInfo)
    (outcome : Outcome) (w : World) : string * World :=
  if negb (ENABLE_AUDIT_LOGGING OPERATIONAL_FLAGS) then ("", w)
  else
    let trackingId := generateTrackingId d in
    (trackingId,
     {| unifiedStore := unifiedStore w;
        rateLimiter := rateLimiter w;
        errorTracker := errorTracker w;
        auditLogger :=
          pushBounded AuditLogger.maxEntries
            (inr {| xa_trackingId := trackingId;
                    xa_timestamp := clock d;
                    xa_operation := operation;
                    xa_details := details;
                    xa_outcome := outcome |})
            (auditLogger w) |}).

Definition withStore (w : World) (store : Store.t JsNumber.t) : World :=
  {| unifiedStore := store; rateLimiter := rateLimiter w;
     errorTracker := errorTracker w; auditLogger := auditLogger w |}.

Definition withRateLimiter (w : World) (attempts : gmap string (list Z)) : World :=
  {| unifiedStore := unifiedStore w; rateLimiter := attempts;
     errorTracker := errorTracker w; auditLogger := auditLogger w |}.

(** A call the operation makes on the caller's [onSuccess] or [onError]. *)
Inductive Callback :=
| OnSuccess (txid : string)
| OnError (error : string) (trackingId : string).

(** The synchronous part of [executePayment]: either [onError] is called
    and the operation is over, or the wallet flow is started for the payment
    found (the object the two inner callbacks close over). *)
Definition start (rateClock : Z) (logDraw : Draw) (paymentId : string)
    (w : World) : (Callback + Payment) * World :=
  let operation := "executePayment" in
  let '(rateLimitCheck, attempts) :=
    RateLimiter.check rateClock ("execute_payment_" ++ paymentId)
      Operations.RATE_LIMITS_EXECUTE_PAYMENT (rateLimiter w) in
  let w := withRateLimiter w attempts in
  if negb (RateLimiter.allowed rateLimitCheck) then
    let '(trackingId, w) :=
      logError logDraw operation "Rate limit exceeded for payment execution"
               NoDetails w in
    (inl (OnError "Too many payment attempts. Please wait a moment." trackingId), w)
  else
    let idValidation := InputValidator.validatePaymentId paymentId in
    if negb (InputValidator.valid idValidation) then
      let '(trackingId, w) :=
        logError logDraw operation
                 (default "" (InputValidator.error idValidation)) NoDetails w in
      (inl (OnError (default "" (InputValidator.error idValidation)) trackingId), w)
    else
      match Store.getPayment paymentId (unifiedStore w) with
      | None =>
          let '(trackingId, w) :=
            logError logDraw operation "Payment not found"
                     (ForPayment paymentId) w in
          (inl (OnError "Payment not found" trackingId), w)
      | Some payment =>
          if PaymentStatus_eqb (Payment.status payment) PAID then
            let '(trackingId, w) :=
              logError logDraw operation "Payment already completed"
                       (ForPayment paymentId) w in
            (inl (OnError "This payment has already been completed" trackingId), w)
          else
            let '(_, w) :=
              auditLog logDraw operation
                (Started paymentId (Payment.merchantId payment)
                         (Payment.amount payment))
                success_ w in
            (inr payment, w)
      end.

(** The two callbacks [executePayment] hands to [createPiPayment], run on
    the world as it is when the flow ends: [now] is the clock, [draw1] and
    [draw2] the draws of the entries written. *)
Definition finish (now : Z) (draw1 draw2 : Draw) (paymentId : string)
    (payment : Payment) (outcome : PiSdk.Outcome) (w : World)
    : option Callback * World :=
  let operation := "executePayment" in
  match outcome with
  | PiSdk.Silent => (None, w)
  | PiSdk.Success txid =>
      let '(success, store) :=
        Store.updatePaymentStatus now paymentId PAID (Some txid)
                                  (unifiedStore w) in
      let w := withStore w store in
      if success then
        let '(_, w) :=
          auditLog draw1 "paymentCompleted"
            (Completed paymentId txid (Payment.merchantId payment)
                       (Payment.amount payment))
            success_ w in
        (Some (OnSuccess txid), w)
      else
        let '(trackingId, w) :=
          logError draw1 operation
                   "Failed to update payment status (race condition)"
                   NoDetails w in
        (Some (OnError "Payment was already completed by another transaction"
                       trackingId), w)
  | PiSdk.Failure error isCancelled =>
      let status := if isCancelled then CANCELLED else FAILED in
      let '(_, store) :=
        Store.updatePaymentStatus now paymentId status None (unifiedStore w) in
      let w := withStore w store in
      let '(trackingId, w) :=
        logError draw1 operation error
                 (ForOutcome paymentId (Payment.merchantId payment) status) w in
      let '(_, w) :=
        auditLog draw2 operation (Ended paymentId error status) failure_ w in
      (Some (OnError error trackingId), w)
  end.

(** The rate limiter would let an execution of the payment through. *)
Definition rateAllows (clock : Z) (paymentId : string) (w : World) : bool :=
  RateLimiter.allowed
    (fst (RateLimiter.check clock ("execute_payment_" ++ paymentId)
            Operations.RATE_LIMITS_EXECUTE_PAYMENT (rateLimiter w))).

(** What one run draws from its environment. *)
Record Env := {
  rateClock : Z;
  startDraw : Draw;
  flow : PiSdk.Flow;
  endClock : Z;
  endDraw1 : Draw;
  endDraw2 : Draw
}.

(** [executePayment(paymentId, onSuccess, onError)] with nothing else
    touching the singletons before the wallet flow ends. *)
Definition executePayment (env : Env) (paymentId : string) (w : World)
    : option Callback * World :=
  match start (rateClock env) (startDraw env) paymentId w with
  | (inl callback, w) => (Some callback, w)
  | (inr payment, w) =>
      finish (endClock env) (endDraw1 env) (endDraw2 env) paymentId payment
             (PiSdk.createPiPayment (flow env)) w
  end.

End Execution.
(** * Scenarios

    Concrete runs of the store, over exact rational amounts. *)

Module Scenario.

(** A store constructed at time 0 for merchant ["merchant_A"]; the session
    carries no merchant id yet, so ["merchant_A"] is the active merchant. *)
Definition merchantA : Store.t Q := Store.fresh 0 "merchant_A" false.

(** A payment is created under the backend id ["pay-1"] and completed. *)
Definition created : Store.t Q :=
  snd (Store.createPaymentWithId "pay-1" 5%Q "coffee" 1000 merchantA).

Definition completed : Store.t Q :=
  snd (Store.updatePaymentStatus 2000 "pay-1" PAID (Some "abc") created).

(** The same backend id is stored a second time. *)
Definition recreated : Store.t Q :=
  snd (Store.createPaymentWithId "pay-1" 5%Q "coffee" 1000 completed).

Definition paidRecord : Payment.t Q :=
  Payment.mk "pay-1" "merchant_A" 5%Q "coffee" PAID 1000 (Some 2000)
             (Some "abc").

(** A record of another merchant arrives from the backend ([addPayment]),
    then the page stores the id again for the active merchant
    ([createPaymentWithId]), as the customer payment view does. *)
Definition foreignRecord : Payment.t Q :=
  Payment.mk "pay-1" "merchant_B" 5%Q "coffee" PENDING 1000 None None.

Definition mirrored : Store.t Q := Store.addPayment foreignRecord merchantA.

Definition shadowed : Store.t Q :=
  snd (Store.createPaymentWithId "pay-1" 5%Q "coffee" 1000 mirrored).

(** The ledger of ["merchant_A"] with payments in every status, and a paid
    payment of ["merchant_B"] among them. *)
Definition mixedLedger : Store.t Q :=
  Store.withPayments merchantA
    [ Payment.mk "pay-6" "merchant_A" 4%Q "tea" CANCELLED 6000 None None;
      Payment.mk "pay-5" "merchant_A" 3%Q "tea" FAILED 5000 None None;
      Payment.mk "pay-4" "merchant_B" 9%Q "cake" PAID 4000 (Some 4500)
                 (Some "def");
      Payment.mk "pay-3" "merchant_A" 2%Q "tea" PENDING 3000 None None;
      Payment.mk "pay-2" "merchant_A" 7%Q "tea" PENDING 2000 None None;
      paidRecord ].

(** A store last written at time 10, and two older snapshots from other
    tabs. *)
Definition localTab : Store.t Q := Store.fresh 10 "merchant_A" false.
Definition S1 : UnifiedState Q := Store.DEFAULT_STATE 1 "merchant_B" false.
Definition S2 : UnifiedState Q := Store.DEFAULT_STATE 2 "merchant_C" false.

End Scenario.

Module OperationScenario.

Definition five : JsNumber.t := JsNumber.Decimal false 5 0.

(** The singletons right after the modules are loaded. *)
Definition world0 : Operations.World :=
  {| Operations.unifiedStore := Store.fresh 0 "merchant_A" false;
     Operations.rateLimiter := ∅;
     Operations.errorTracker := [];
     Operations.auditLogger := [];
     Operations.paymentCache := ∅ |}.

Definition draw (now : Z) : Draw := {| clock := now; random := "K3J9X0A1B" |}.

(** The backend answers with the payment ["pay-1"]. *)
Definition replyPay1 : Operations.Reply :=
  Operations.Response true "OK" (Some "application/json; charset=utf-8") ""
    (Operations.Json
       (Some {| Operations.sp_id := "pay-1"; Operations.sp_createdAt := 900 |})).

(** The backend answers [500 Internal Server Error]. *)
Definition replyDown : Operations.Reply :=
  Operations.Response false "Internal Server Error" (Some "text/html")
    "<html>" (Operations.NotJson (JsError "Unexpected token <")).

Definition envAt (now : Z) (r : Operations.Reply) : Operations.Env :=
  {| Operations.rateClock := now;
     Operations.guardDraws := (draw now, draw now, draw now);
     Operations.logDraw := draw now;
     Operations.reply := r;
     Operations.cacheStorage := Operations.Writable |}.

(** Two calls in a row; the backend hands out the same id both times. *)
Definition afterFirst : Operations.OperationResult * Operations.World :=
  Operations.createPayment (envAt 1000 replyPay1) five "coffee" world0.

Definition afterSecond : Operations.OperationResult * Operations.World :=
  Operations.createPayment (envAt 2000 replyPay1) five "coffee" (snd afterFirst).

End OperationScenario.

(** * Further scenarios *)

Module MoreScenario.

(** The ledger of [Scenario.completed] with a record of another merchant
    behind it. *)
Definition twoMerchants : Store.t Q :=
  Store.addPayment
    (Payment.mk "pay-2" "merchant_B" 7%Q "tea" PENDING 1500 None None)
    Scenario.completed.

(** Payments of ["merchant_A"] stored out of the order of their creation,
    and one of ["merchant_B"]. *)
Definition unordered : Store.t Q :=
  Store.withPayments Scenario.merchantA
    [ Payment.mk "pay-2" "merchant_A" 7%Q "tea" PENDING 2000 None None;
      Payment.mk "pay-6" "merchant_A" 4%Q "tea" CANCELLED 6000 None None;
      Payment.mk "pay-4" "merchant_B" 9%Q "cake" PAID 4000 (Some 4500)
                 (Some "def");
      Payment.mk "pay-3" "merchant_A" 2%Q "tea" PENDING 3000 None None ].

(** A session that names its merchant. *)
Definition toMerchant (m : string) : Store.SessionUpdates :=
  {| Store.new_isAuthenticated := None; Store.new_userId := None;
     Store.new_username := None; Store.new_currentMerchantId := Some m |}.

(** The singletons of the operations layer after the first creation of
    [OperationScenario], as [executePayment] sees them: one [PENDING] payment
    ["pay-1"] of the active merchant, nothing executed yet. *)
Definition execWorld : Execution.World :=
  {| Execution.unifiedStore :=
       Operations.unifiedStore (snd OperationScenario.afterFirst);
     Execution.rateLimiter := ∅;
     Execution.errorTracker := [];
     Execution.auditLogger := [] |}.

Definition pending : Payment.t JsNumber.t :=
  Payment.mk "pay-1" "merchant_A" OperationScenario.five "coffee" PENDING 900
             None None.

Definition execEnv (now : Z) (flow : PiSdk.Flow) : Execution.Env :=
  {| Execution.rateClock := now;
     Execution.startDraw := OperationScenario.draw now;
     Execution.flow := flow;
     Execution.endClock := now + 1000;
     Execution.endDraw1 := OperationScenario.draw (now + 1000);
     Execution.endDraw2 := OperationScenario.draw (now + 1001) |}.

(** The same, with the payment already completed. *)
Definition paidWorld : Execution.World :=
  snd (Execution.executePayment
         (execEnv 3000 (PiSdk.ReadyForServerCompletion "pi-1" "tx-1"))
         "pay-1" execWorld).

(** Ten creation attempts within one second, each refused by the backend. *)
Definition tenCalls : list (Operations.Env * JsNumber.t * string) :=
  List.map
    (fun n => (OperationScenario.envAt (1000 + Z.of_nat n)
                 OperationScenario.replyDown,
               OperationScenario.five, "coffee"))
    (seq 0 10).

End MoreScenario.

(** * Properties of the ledger store *)

Section LedgerFacts.
Context {Num : Type}.
Implicit Types (st : Store.t Num) (p : Payment.t Num).

Lemma insertBy_In {A} (cmp : A -> A -> Z) (x y : A) (l : list A) :
  In y (insertBy cmp x l) <-> y = x \/ In y l.
Proof.
  induction l as [|z l IH]; simpl.
  - intuition.
  - destruct (cmp x z <=? 0); simpl; [intuition|].
    rewrite IH. intuition.
Qed.

Lemma arraySort_In {A} (cmp : A -> A -> Z) (y : A) (l : list A) :
  In y (arraySort cmp l) <-> In y l.
Proof.
  induction l as [|x l IH]; simpl; [tauto|].
  rewrite insertBy_In, IH. intuition.
Qed.

Lemma insertBy_length {A} (cmp : A -> A -> Z) (x : A) (l : list A) :
  length (insertBy cmp x l) = S (length l).
Proof.
  induction l as [|z l IH]; simpl; [reflexivity|].
  destruct (cmp x z <=? 0); simpl; congruence.
Qed.

Lemma arraySort_length {A} (cmp : A -> A -> Z) (l : list A) :
  length (arraySort cmp l) = length l.
Proof.
  induction l as [|x l IH]; simpl; [reflexivity|].
  now rewrite insertBy_length, IH.
Qed.

Lemma PaymentStatus_eqb_eq (a b : PaymentStatus) :
  PaymentStatus_eqb a b = true <-> a = b.
Proof. destruct a, b; simpl; split; intros H; try reflexivity; discriminate. Qed.

Lemma find_hasId_Some i (l : list (Payment.t Num)) p :
  List.find (Store.hasId i) l = Some p -> In p l /\ Payment.id p = i.
Proof.
  intros H. apply List.find_some in H as [Hin Hid].
  split; [exact Hin|]. now apply String.eqb_eq.
Qed.

Lemma ownedBy_true m p : Store.ownedBy m p = true <-> Payment.merchantId p = m.
Proof. unfold Store.ownedBy. apply String.eqb_eq. Qed.

Lemma ownedBy_false m p : Store.ownedBy m p = false <-> Payment.merchantId p <> m.
Proof. unfold Store.ownedBy. apply String.eqb_neq. Qed.

(** Membership in the listing: exactly the stored records of the active
    merchant. *)
Lemma getAllPayments_In st p :
  In p (Store.getAllPayments st) <->
  In p (payments (Store.state st)) /\
  Payment.merchantId p = Store.currentMerchant st.
Proof.
  unfold Store.getAllPayments.
  rewrite arraySort_In, List.filter_In, ownedBy_true. tauto.
Qed.

(** What [getPayment] returns is the first record with the id, and only when
    the active merchant owns it. *)
Lemma getPayment_Some st i p :
  Store.getPayment i st = Some p <->
  List.find (Store.hasId i) (payments (Store.state st)) = Some p /\
  Payment.merchantId p = Store.currentMerchant st.
Proof.
  unfold Store.getPayment.
  destruct (List.find _ _) as [q|] eqn:Hf.
  - destruct (Store.ownedBy _ q) eqn:Ho; simpl.
    + apply ownedBy_true in Ho. split.
      * intros [= <-]. auto.
      * intros [[= <-] _]. reflexivity.
    + apply ownedBy_false in Ho. split; [discriminate|].
      intros [[= <-] Hm]. contradiction.
  - split; [discriminate|]. intros [? _]. discriminate.
Qed.

End LedgerFacts.

Section LedgerGuards.
Context {Num : Type}.
Implicit Types (st : Store.t Num) (p : Payment.t Num).

(** The double-payment guard, on the record the lookup resolves: when the
    first stored record with the id is [PAID], the update is refused and the
    store object is untouched. *)
Lemma updatePaymentStatus_resolved_paid st now i s tx p :
  List.find (Store.hasId i) (payments (Store.state st)) = Some p ->
  Payment.status p = PAID ->
  Store.updatePaymentStatus now i s tx st = (false, st).
Proof.
  intros Hf Hs. unfold Store.updatePaymentStatus, Store.getPayment.
  rewrite Hf. destruct (negb _); [reflexivity|].
  now rewrite Hs.
Qed.

(** The merchant guard, on the record the lookup resolves. *)
Lemma updatePaymentStatus_resolved_foreign st now i s tx p :
  List.find (Store.hasId i) (payments (Store.state st)) = Some p ->
  Payment.merchantId p <> Store.currentMerchant st ->
  Store.updatePaymentStatus now i s tx st = (false, st).
Proof.
  intros Hf Hm. unfold Store.updatePaymentStatus, Store.getPayment.
  rewrite Hf. apply ownedBy_false in Hm. now rewrite Hm.
Qed.

(** With pairwise distinct ids, the lookup resolves an id to the one stored
    record that carries it. *)
Lemma find_hasId_NoDup (l : list (Payment.t Num)) p :
  NoDup (List.map Payment.id l) -> In p l ->
  List.find (Store.hasId (Payment.id p)) l = Some p.
Proof.
  induction l as [|q l IH]; simpl; [tauto|].
  intros Hnd Hin. apply NoDup_cons in Hnd as [Hq Hnd].
  unfold Store.hasId at 1. destruct (String.eqb_spec (Payment.id q) (Payment.id p)) as [E|E].
  - destruct Hin as [->|Hin]; [reflexivity|].
    exfalso. apply Hq. rewrite E. apply list_elem_of_In, in_map, Hin.
  - destruct Hin as [->|Hin]; [congruence|]. now apply IH.
Qed.

(** Both guards for every stored record, in a ledger whose ids are pairwise
    distinct. *)
Lemma updatePaymentStatus_unique_ids st now s tx p :
  NoDup (List.map Payment.id (payments (Store.state st))) ->
  In p (payments (Store.state st)) ->
  Payment.status p = PAID \/ Payment.merchantId p <> Store.currentMerchant st ->
  Store.updatePaymentStatus now (Payment.id p) s tx st = (false, st).
Proof.
  intros Hnd Hin [Hs|Hm].
  - eapply updatePaymentStatus_resolved_paid; [|exact Hs].
    now apply find_hasId_NoDup.
  - eapply updatePaymentStatus_resolved_foreign; [|exact Hm].
    now apply find_hasId_NoDup.
Qed.

(** [updateFirst] touches one element only: the one [find] returns. *)
Lemma updateFirst_keeps {A} (f : A -> bool) (g : A -> A) (l : list A) y n x :
  List.find f l = Some y -> x <> y -> l !! n = Some x ->
  updateFirst f g l !! n = Some x.
Proof.
  revert n. induction l as [|z l IH]; intros n Hf Hne Hn; [discriminate|].
  simpl in *. destruct (f z) eqn:Hz.
  - injection Hf as ->. destruct n as [|n]; simpl in *; [congruence|exact Hn].
  - destruct n as [|n]; simpl in *; [exact Hn|]. now apply IH.
Qed.

(** No call of [updatePaymentStatus], for whatever id, alters a stored
    record that is [PAID] or that belongs to another merchant: the record
    stays where it is in the list, field for field. *)
Lemma updatePaymentStatus_keeps st now i s tx n p :
  payments (Store.state st) !! n = Some p ->
  Payment.status p = PAID \/ Payment.merchantId p <> Store.currentMerchant st ->
  payments (Store.state (snd (Store.updatePaymentStatus now i s tx st))) !! n
    = Some p.
Proof.
  intros Hn Hp. unfold Store.updatePaymentStatus.
  destruct (Store.getPayment i st) as [q|] eqn:Hg; [|exact Hn].
  apply getPayment_Some in Hg as [Hf Hq].
  destruct (PaymentStatus_eqb (Payment.status q) PAID) eqn:Hs; [exact Hn|].
  simpl. eapply updateFirst_keeps; [exact Hf| |exact Hn].
  intros ->. destruct Hp as [Hp|Hp]; [|contradiction].
  rewrite Hp in Hs. discriminate.
Qed.

End LedgerGuards.

(** C3. [getAllPayments()] lists exactly the stored records of the active
    merchant, so never a foreign one; [getPayment(id)] returns nothing when
    the record the id resolves to belongs to another merchant, and whatever
    it returns is a stored record of the active merchant with that id. *)
Theorem merchant_scoped_reads {Num : Type} (st : Store.t Num) :
  (forall p, In p (Store.getAllPayments st) ->
             Payment.merchantId p = Store.currentMerchant st) /\
  (forall p, In p (Store.getAllPayments st) <->
             In p (payments (Store.state st)) /\
             Payment.merchantId p = Store.currentMerchant st) /\
  (forall i p,
      List.find (Store.hasId i) (payments (Store.state st)) = Some p ->
      Payment.merchantId p <> Store.currentMerchant st ->
      Store.getPayment i st = None) /\
  (forall i p,
      Store.getPayment i st = Some p ->
      In p (payments (Store.state st)) /\ Payment.id p = i /\
      Payment.merchantId p = Store.currentMerchant st).
Proof.
  repeat split.
  - intros p Hp. now apply getAllPayments_In in Hp.
  - now apply getAllPayments_In.
  - now apply getAllPayments_In.
  - now apply getAllPayments_In.
  - intros i p Hf Hm. destruct (Store.getPayment i st) as [q|] eqn:Hg; [|reflexivity].
    apply getPayment_Some in Hg as [Hf' Hq]. congruence.
  - apply getPayment_Some in H as [Hf _]. now apply find_hasId_Some in Hf.
  - apply getPayment_Some in H as [Hf _]. now apply find_hasId_Some in Hf.
  - now apply getPayment_Some in H.
Qed.

(** Reads on a ledger that holds a record of ["merchant_B"] while
    ["merchant_A"] is active: the record is neither listed nor returned. *)
Example reads_hide_foreign_record :
  payments (Store.state Scenario.mirrored) = [Scenario.foreignRecord] /\
  Store.getAllPayments Scenario.mirrored = [] /\
  Store.getPayment "pay-1" Scenario.mirrored = None.
Proof. repeat split. Qed.

(** C1 (code evaluated at the failing input). After ["pay-1"] was created,
    completed and stored once more under the same id, the ledger holds a
    [PAID] record with that id, and yet [updatePaymentStatus("pay-1", PAID,
    "xyz")] returns [true] and writes a second completion. *)
Theorem paid_record_shadowed_by_duplicate_id :
  In Scenario.paidRecord (payments (Store.state Scenario.recreated)) /\
  Payment.status Scenario.paidRecord = PAID /\
  fst (Store.updatePaymentStatus 3000 "pay-1" PAID (Some "xyz")
         Scenario.recreated) = true /\
  payments (Store.state
              (snd (Store.updatePaymentStatus 3000 "pay-1" PAID (Some "xyz")
                      Scenario.recreated))) =
  [ Payment.mk "pay-1" "merchant_A" 5%Q "coffee" PAID 1000 (Some 3000)
               (Some "xyz");
    Scenario.paidRecord ].
Proof.
  repeat split.
  right; left; reflexivity.
Qed.

(** C10, counterexample. The ledger holds a record of ["merchant_B"] with
    id ["pay-1"] while ["merchant_A"] is active, and yet
    [updatePaymentStatus("pay-1", PAID, "abc")] returns [true] and changes a
    stored payment: the id resolves to the record of the active merchant
    that sits in front of it.  The record of ["merchant_B"] is as before. *)
Theorem foreign_record_shadowed_by_duplicate_id :
  In Scenario.foreignRecord (payments (Store.state Scenario.shadowed)) /\
  Payment.merchantId Scenario.foreignRecord <>
    Store.currentMerchant Scenario.shadowed /\
  fst (Store.updatePaymentStatus 2000 "pay-1" PAID (Some "abc")
         Scenario.shadowed) = true /\
  payments (Store.state Scenario.shadowed) =
  [ Payment.mk "pay-1" "merchant_A" 5%Q "coffee" PENDING 1000 None None;
    Scenario.foreignRecord ] /\
  payments (Store.state
              (snd (Store.updatePaymentStatus 2000 "pay-1" PAID (Some "abc")
                      Scenario.shadowed))) =
  [ Payment.mk "pay-1" "merchant_A" 5%Q "coffee" PAID 1000 (Some 2000)
               (Some "abc");
    Scenario.foreignRecord ].
Proof.
  repeat split.
  - right; left; reflexivity.
  - discriminate.
Qed.

(** C10, amended. Merchant isolation on status writes.  No call of
    [updatePaymentStatus], whatever its arguments and its answer, changes a
    stored payment of another merchant: each stays where it is in the list,
    field for field.  The call answers [false] and leaves the whole store
    object as it is whenever the id resolves, by the lookup of [getPayment]
    (the first stored record with the id), to a payment of another merchant;
    with pairwise distinct stored ids that is so for the id of every foreign
    payment.  A call that answers [true] resolved the id to a record of the
    active merchant. *)
Theorem updatePaymentStatus_merchant_isolation {Num : Type} (st : Store.t Num)
    (now : Z) (i : string) (s : PaymentStatus) (tx : option string) :
  let r := Store.updatePaymentStatus now i s tx st in
  (forall n p,
      payments (Store.state st) !! n = Some p ->
      Payment.merchantId p <> Store.currentMerchant st ->
      payments (Store.state (snd r)) !! n = Some p) /\
  (forall p,
      List.find (Store.hasId i) (payments (Store.state st)) = Some p ->
      Payment.merchantId p <> Store.currentMerchant st ->
      r = (false, st)) /\
  (forall p,
      NoDup (List.map Payment.id (payments (Store.state st))) ->
      In p (payments (Store.state st)) -> Payment.id p = i ->
      Payment.merchantId p <> Store.currentMerchant st ->
      r = (false, st)) /\
  (fst r = true ->
   exists q,
     List.find (Store.hasId i) (payments (Store.state st)) = Some q /\
     Payment.merchantId q = Store.currentMerchant st /\
     Payment.status q <> PAID).
Proof.
  intros r. subst r. split; [|split; [|split]].
  - intros n p Hn Hm. apply updatePaymentStatus_keeps; [exact Hn|now right].
  - intros p Hf Hm. now apply updatePaymentStatus_resolved_foreign with p.
  - intros p Hnd Hin <- Hm.
    apply updatePaymentStatus_resolved_foreign with p; [|exact Hm].
    now apply find_hasId_NoDup.
  - unfold Store.updatePaymentStatus.
    destruct (Store.getPayment i st) as [q|] eqn:Hg; [|discriminate].
    apply getPayment_Some in Hg as [Hf Hq].
    destruct (PaymentStatus_eqb (Payment.status q) PAID) eqn:Hs; [discriminate|].
    intros _. exists q. repeat split; try assumption.
    intros Hpaid. rewrite Hpaid in Hs. discriminate.
Qed.

(** * The domain toggles *)

(** C4, counterexample. In the default state the master toggle is off and
    the ["flashpay"] toggle reads as enabled. *)
Lemma isDomainEnabled_ignores_master :
  Store.isMasterEnabled Scenario.merchantA = false /\
  Store.isDomainEnabled "flashpay" Scenario.merchantA = JsBool true.
Proof. split; reflexivity. Qed.

(** An own property of the [domains] object is read before anything else. *)
Lemma readProperty_own (o : gmap string bool) key flag :
  o !! key = Some flag -> readProperty key o = Some (JsBool flag).
Proof. intros Ho. unfold readProperty. now rewrite Ho. Qed.

(** An assignment is read back, the one exception being ["__proto__"] on an
    object that has no own property of that name. *)
Lemma readProperty_assign (o : gmap string bool) key value :
  key <> "__proto__" \/ o !! key <> None ->
  readProperty key (assignProperty key value o) = Some (JsBool value).
Proof.
  intros Hkey. apply readProperty_own. unfold assignProperty.
  destruct (o !! key) eqn:Ho; [apply lookup_insert_eq|].
  destruct (String.eqb_spec key "__proto__") as [->|_];
    [|apply lookup_insert_eq].
  destruct Hkey; congruence.
Qed.

(** An assignment leaves the reads of every other key as they were. *)
Lemma readProperty_assign_other (o : gmap string bool) key other value :
  other <> key ->
  readProperty other (assignProperty key value o) = readProperty other o.
Proof.
  intros Hne. unfold readProperty, assignProperty.
  destruct (o !! key); [now rewrite lookup_insert_ne|].
  destruct (String.eqb key "__proto__"); [reflexivity|].
  now rewrite lookup_insert_ne.
Qed.

(** C4, amended. While the master toggle is off no individual toggle can be
    changed: [setDomainEnabled] returns [false] and leaves the store object
    untouched, for every domain and value.  Reading is not gated:
    [isDomainEnabled] gives the same answer whatever the master toggle is
    set to, namely the stored flag of the domain; for an id without a stored
    flag it gives [false], unless the id names a member of
    [Object.prototype] (as ["constructor"] does): the read then returns that
    member. *)
Theorem master_off_locks_domain_toggles {Num : Type} (st : Store.t Num)
    (domainId : string) :
  masterEnabled (domainState (Store.state st)) = false ->
  (forall enabled, Store.setDomainEnabled domainId enabled st = (false, st)) /\
  (forall master,
      Store.isDomainEnabled domainId (Store.setMasterEnabled master st) =
      Store.isDomainEnabled domainId st) /\
  Store.isDomainEnabled domainId st =
    match domains (domainState (Store.state st)) !! domainId with
    | Some flag => JsBool flag
    | None =>
        if inherited domainId then PrototypeMember domainId else JsBool false
    end.
Proof.
  intros Hoff. split; [|split].
  - intros enabled. unfold Store.setDomainEnabled. now rewrite Hoff.
  - reflexivity.
  - unfold Store.isDomainEnabled, readProperty.
    destruct (_ !! _); [reflexivity|]. now destruct (inherited domainId).
Qed.

Lemma master_off_locks_domain_toggles_witness :
  (forall enabled,
      Store.setDomainEnabled "flashpay" enabled Scenario.merchantA =
      (false, Scenario.merchantA)) /\
  Store.isDomainEnabled "flashpay" Scenario.merchantA = JsBool true.
Proof.
  destruct (master_off_locks_domain_toggles Scenario.merchantA "flashpay"
              eq_refl) as (Hset & _ & Hget).
  split; [exact Hset|exact Hget].
Defined.

(** An id that names a member of [Object.prototype] reads as that member,
    which is truthy, though no such domain was ever stored or enabled. *)
Example isDomainEnabled_inherited_member :
  domains (domainState (Store.state Scenario.merchantA)) !! "constructor" = None /\
  Store.isDomainEnabled "constructor" Scenario.merchantA
    = PrototypeMember "constructor" /\
  truthy (Store.isDomainEnabled "constructor" Scenario.merchantA) = true /\
  Store.isDomainEnabled "checkout" Scenario.merchantA = JsBool false.
Proof. repeat split. Qed.

(** With the master toggle on, a toggle is written and then read back. *)
Lemma setDomainEnabled_master_on {Num : Type} (st : Store.t Num) domainId enabled :
  masterEnabled (domainState (Store.state st)) = true ->
  domainId <> "__proto__" ->
  fst (Store.setDomainEnabled domainId enabled st) = true /\
  Store.isDomainEnabled domainId (snd (Store.setDomainEnabled domainId enabled st))
    = JsBool enabled.
Proof.
  intros Hon Hid. unfold Store.setDomainEnabled. rewrite Hon. simpl.
  split; [reflexivity|].
  unfold Store.isDomainEnabled. simpl. rewrite readProperty_assign; [reflexivity|].
  now left.
Qed.

(** * Cross-tab reconciliation *)

Section CrossTab.
Context {Num : Type}.
Implicit Types (st : Store.t Num) (S : UnifiedState Num).

(** Strict last-writer-wins for one notification. *)
Lemma onStorage_snapshot st S :
  Store.state (Store.onStorage (Store.snapshotEvent S) st) =
  if lastUpdated S >? lastUpdated (Store.state st) then S else Store.state st.
Proof.
  unfold Store.onStorage, Store.snapshotEvent. simpl.
  now destruct (_ >? _).
Qed.

(** A notification for another key, without a value, or with a value the
    listener cannot read, changes nothing. *)
Lemma onStorage_ignored st (event : Store.StorageEvent (Num:=Num)) :
  Store.key event <> Store.STORAGE_KEY \/
  Store.newValue event = Store.NoValue \/
  Store.newValue event = Store.Malformed ->
  Store.onStorage event st = st.
Proof.
  unfold Store.onStorage. intros [Hk|[Hv|Hv]].
  - apply String.eqb_neq in Hk. now rewrite Hk.
  - rewrite Hv. now destruct (String.eqb _ _).
  - rewrite Hv. now destruct (String.eqb _ _).
Qed.

End CrossTab.

(** C7, counterexample. A tab whose state was written at time 10 receives
    the snapshots [S1] (time 1) and [S2] (time 2): in either order both are
    discarded, and the tab is not in [S2]'s state. *)
Lemma stale_snapshots_are_discarded :
  lastUpdated Scenario.S1 < lastUpdated Scenario.S2 /\
  Store.onStorage (Store.snapshotEvent Scenario.S2)
    (Store.onStorage (Store.snapshotEvent Scenario.S1) Scenario.localTab)
    = Scenario.localTab /\
  Store.onStorage (Store.snapshotEvent Scenario.S1)
    (Store.onStorage (Store.snapshotEvent Scenario.S2) Scenario.localTab)
    = Scenario.localTab /\
  Store.state Scenario.localTab <> Scenario.S2.
Proof.
  repeat split. intros H. apply (f_equal lastUpdated) in H. discriminate H.
Qed.

(** C7, amended. A snapshot is applied exactly when its [lastUpdated] is
    strictly greater than the local one.  So for snapshots [S1], [S2] with
    [lastUpdated S1 < lastUpdated S2], both orders of arrival end in the same
    state: [S2] when [S2] is strictly newer than the local state, the
    unchanged local state otherwise. *)
Theorem onStorage_last_writer_wins {Num : Type} (st : Store.t Num)
    (S1 S2 : UnifiedState Num) :
  lastUpdated S1 < lastUpdated S2 ->
  let final :=
    if lastUpdated S2 >? lastUpdated (Store.state st) then S2
    else Store.state st in
  Store.state (Store.onStorage (Store.snapshotEvent S2)
                 (Store.onStorage (Store.snapshotEvent S1) st)) = final /\
  Store.state (Store.onStorage (Store.snapshotEvent S1)
                 (Store.onStorage (Store.snapshotEvent S2) st)) = final.
Proof.
  intros Hlt final. subst final.
  rewrite !onStorage_snapshot, !Z.gtb_ltb.
  destruct (Z.ltb_spec (lastUpdated (Store.state st)) (lastUpdated S1));
    destruct (Z.ltb_spec (lastUpdated (Store.state st)) (lastUpdated S2));
    repeat match goal with
           | |- context [ ?a <? ?b ] => destruct (Z.ltb_spec a b)
           end; split; try reflexivity; lia.
Qed.

Lemma onStorage_last_writer_wins_witness :
  Store.state (Store.onStorage (Store.snapshotEvent Scenario.S2)
                 (Store.onStorage (Store.snapshotEvent Scenario.S1)
                    (Store.fresh (Num:=Q) 0 "merchant_A" false))) = Scenario.S2 /\
  Store.state (Store.onStorage (Store.snapshotEvent Scenario.S1)
                 (Store.onStorage (Store.snapshotEvent Scenario.S2)
                    (Store.fresh (Num:=Q) 0 "merchant_A" false))) = Scenario.S2.
Proof.
  apply (onStorage_last_writer_wins (Store.fresh 0 "merchant_A" false)
           Scenario.S1 Scenario.S2).
  reflexivity.
Defined.

(** * Statistics *)

Section Stats.
Context {Num : Type} `{JsArith Num}.
Implicit Types (st : Store.t Num) (p : Payment.t Num).

Lemma filter_insertBy_length {A} (cmp : A -> A -> Z) (f : A -> bool) x (l : list A) :
  length (List.filter f (insertBy cmp x l)) = length (List.filter f (x :: l)).
Proof.
  induction l as [|y l IH]; [reflexivity|].
  simpl insertBy. destruct (cmp x y <=? 0); [reflexivity|].
  simpl in *. destruct (f y), (f x); simpl in *; lia.
Qed.

(** Sorting does not change how many elements pass a test. *)
Lemma filter_arraySort_length {A} (cmp : A -> A -> Z) (f : A -> bool) (l : list A) :
  length (List.filter f (arraySort cmp l)) = length (List.filter f l).
Proof.
  induction l as [|x l IH]; [reflexivity|].
  simpl arraySort. rewrite filter_insertBy_length. simpl.
  destruct (f x); simpl; lia.
Qed.


Lemma fold_left_map {A B C} (f : A -> B -> A) (g : C -> B) (l : list C) (a : A) :
  fold_left f (List.map g l) a = fold_left (fun acc x => f acc (g x)) l a.
Proof. revert a. induction l as [|x l IH]; simpl; auto. Qed.

(** The two tests of the code, the merchant's and the status's, select the
    records the specification speaks of. *)
Lemma ownedBy_decide m p :
  Store.ownedBy m p = bool_decide (Payment.merchantId p = m).
Proof.
  destruct (Store.ownedBy m p) eqn:E.
  - apply ownedBy_true in E. now rewrite bool_decide_eq_true_2.
  - apply ownedBy_false in E. now rewrite bool_decide_eq_false_2.
Qed.

Lemma hasStatus_decide s p :
  Store.hasStatus s p = bool_decide (Payment.status p = s).
Proof.
  unfold Store.hasStatus.
  destruct (PaymentStatus_eqb (Payment.status p) s) eqn:E.
  - apply PaymentStatus_eqb_eq in E. now rewrite bool_decide_eq_true_2.
  - rewrite bool_decide_eq_false_2; [reflexivity|].
    intros E'. apply PaymentStatus_eqb_eq in E'. congruence.
Qed.

Lemma filter_status_of_owned m s (l : list (Payment.t Num)) :
  List.filter (Store.hasStatus s) (List.filter (Store.ownedBy m) l) =
  List.filter
    (fun p => bool_decide (Payment.merchantId p = m /\ Payment.status p = s)) l.
Proof.
  induction l as [|p l IH]; [reflexivity|].
  cbn [List.filter]. rewrite ownedBy_decide.
  destruct (decide (Payment.merchantId p = m)) as [Hm|Hm].
  - rewrite (bool_decide_eq_true_2 _ Hm). cbn [List.filter].
    rewrite hasStatus_decide.
    destruct (decide (Payment.status p = s)) as [Hs|Hs].
    + rewrite (bool_decide_eq_true_2 _ Hs), bool_decide_eq_true_2 by tauto.
      now rewrite IH.
    + rewrite (bool_decide_eq_false_2 _ Hs), bool_decide_eq_false_2 by tauto.
      exact IH.
  - rewrite (bool_decide_eq_false_2 _ Hm), bool_decide_eq_false_2 by tauto.
    exact IH.
Qed.

Lemma getPaymentStats_counts st :
  let s := Store.getPaymentStats st in
  let m := Store.currentMerchant st in
  let ledger := payments (Store.state st) in
  Store.totalPayments s = length (Store.getAllPayments st) /\
  Store.totalPayments s =
    length (List.filter (fun p => bool_decide (Payment.merchantId p = m)) ledger) /\
  Store.paidPayments s = Store.countOf m PAID ledger /\
  Store.pendingPayments s = Store.countOf m PENDING ledger /\
  Store.failedPayments s = Store.countOf m FAILED ledger /\
  Store.cancelledPayments s = Store.countOf m CANCELLED ledger.
Proof.
  unfold Store.getPaymentStats, Store.getAllPayments, Store.countOf. simpl.
  rewrite arraySort_length, !filter_status_of_owned.
  repeat split.
  f_equal. apply List.filter_ext. intros p. apply ownedBy_decide.
Qed.

Lemma getPaymentStats_amounts st :
  let s := Store.getPaymentStats st in
  Store.totalAmount s = Store.paidSum (Store.currentMerchant st) (payments (Store.state st)) /\
  Store.conversionRate s =
    match Store.totalPayments s with
    | O => jsOfNat 0
    | S _ => jsMul (jsDiv (jsOfNat (Store.paidPayments s))
                          (jsOfNat (Store.totalPayments s)))
                   (jsOfNat 100)
    end.
Proof.
  unfold Store.getPaymentStats, Store.paidSum. simpl. split.
  - now rewrite fold_left_map, filter_status_of_owned.
  - now destruct (List.filter (Store.ownedBy _) _).
Qed.

(** The statistics look at the records of the active merchant only: two
    stores with the same active merchant that hold the same records of that
    merchant, in the same order, have the same statistics. *)
Lemma getPaymentStats_own_records st st' :
  Store.currentMerchant st' = Store.currentMerchant st ->
  List.filter (fun p => bool_decide (Payment.merchantId p = Store.currentMerchant st))
              (payments (Store.state st')) =
  List.filter (fun p => bool_decide (Payment.merchantId p = Store.currentMerchant st))
              (payments (Store.state st)) ->
  Store.getPaymentStats st' = Store.getPaymentStats st.
Proof.
  intros Hm Hsame. unfold Store.getPaymentStats. rewrite Hm.
  rewrite !(List.filter_ext _ _ (ownedBy_decide (Store.currentMerchant st))).
  now rewrite Hsame.
Qed.

End Stats.

Lemma filter_none {A} (f : A -> bool) (l : list A) :
  (forall x, In x l -> f x = false) -> List.filter f l = [].
Proof.
  induction l as [|x l IH]; intros Hall; [reflexivity|].
  simpl. rewrite (Hall x) by (now left). apply IH. intros y Hy. apply Hall. now right.
Qed.

Lemma ownedBy_mk {Num} m i (a : Num) n s c pa tx :
  Store.ownedBy m (Payment.mk i m a n s c pa tx) = true.
Proof. apply String.eqb_refl. Qed.

Lemma hasId_mk {Num} m i (a : Num) n s c pa tx :
  Store.hasId i (Payment.mk i m a n s c pa tx) = true.
Proof. apply String.eqb_refl. Qed.

(** C9. For the active merchant [m], [getPaymentStats()] reports as
    [totalPayments] the number of stored records whose merchant is [m] (the
    records [getAllPayments()] lists), as [paidPayments], [pendingPayments],
    [failedPayments] and [cancelledPayments] the number of those that are in
    status [PAID], [PENDING], [FAILED] and [CANCELLED], and as [totalAmount]
    the sum of the amounts of those in status [PAID]; [conversionRate] is
    [paidPayments / totalPayments * 100], and [0] when there is no payment;
    records of other merchants do not enter: stores that agree on the active
    merchant and on its records report the same.
    In a merchant context without payments of its own, creating a payment of
    amount 5 with note "coffee" gives a [PENDING] record, counted as pending
    and not as paid; once it is updated to [PAID] with txid "abc" the
    statistics read [paidPayments = 1], [totalAmount = 5],
    [conversionRate = 100], and no payment is counted as pending, failed or
    cancelled. *)
Theorem getPaymentStats_active_merchant :
  (forall (Num : Type) (A : JsArith Num) (st : Store.t Num),
      let s := Store.getPaymentStats st in
      let m := Store.currentMerchant st in
      let ledger := payments (Store.state st) in
      Store.totalPayments s = length (Store.getAllPayments st) /\
      Store.totalPayments s =
        length (List.filter (fun p => bool_decide (Payment.merchantId p = m))
                            ledger) /\
      Store.paidPayments s = Store.countOf m PAID ledger /\
      Store.pendingPayments s = Store.countOf m PENDING ledger /\
      Store.failedPayments s = Store.countOf m FAILED ledger /\
      Store.cancelledPayments s = Store.countOf m CANCELLED ledger /\
      Store.totalAmount s = Store.paidSum m ledger /\
      Store.conversionRate s =
        match Store.totalPayments s with
        | O => jsOfNat 0
        | S _ => jsMul (jsDiv (jsOfNat (Store.paidPayments s))
                              (jsOfNat (Store.totalPayments s)))
                       (jsOfNat 100)
        end /\
      (forall st' : Store.t Num,
          Store.currentMerchant st' = m ->
          List.filter (fun p => bool_decide (Payment.merchantId p = m))
                      (payments (Store.state st')) =
          List.filter (fun p => bool_decide (Payment.merchantId p = m)) ledger ->
          Store.getPaymentStats st' = s)) /\
  (forall (st : Store.t Q) (now paidTime : Z) (rnd : string),
      Store.processingLocks st = ∅ ->
      (forall p, In p (payments (Store.state st)) ->
                 Payment.merchantId p <> Store.currentMerchant st) ->
      exists p st1 st2,
        Store.createPayment now rnd 5%Q "coffee" st = (inr p, st1) /\
        Payment.status p = PENDING /\
        Store.getPaymentStats st1 =
          {| Store.totalPayments := 1; Store.paidPayments := 0;
             Store.pendingPayments := 1; Store.failedPayments := 0;
             Store.cancelledPayments := 0; Store.totalAmount := 0%Q;
             Store.conversionRate := 0%Q |} /\
        Store.updatePaymentStatus paidTime (Payment.id p) PAID (Some "abc") st1
          = (true, st2) /\
        Store.getPaymentStats st2 =
          {| Store.totalPayments := 1; Store.paidPayments := 1;
             Store.pendingPayments := 0; Store.failedPayments := 0;
             Store.cancelledPayments := 0; Store.totalAmount := 5%Q;
             Store.conversionRate := 100%Q |}).
Proof.
  split.
  - intros Num A st s m ledger.
    pose proof (getPaymentStats_counts st) as Hc.
    pose proof (getPaymentStats_amounts st) as Ha.
    simpl in Hc, Ha. subst s m ledger.
    destruct Hc as (H1 & H2 & H3 & H4 & H5 & H6), Ha as (H7 & H8).
    repeat (split; [assumption|]).
    intros st' Hm Hsame. now apply getPaymentStats_own_records.
  - intros st now paidTime rnd Hlocks Hfresh.
    unfold Store.createPayment. rewrite Hlocks.
    destruct (decide _) as [Hin|_]; [set_solver|].
    do 3 eexists. split; [reflexivity|]. split; [reflexivity|].
    assert (Hnone : List.filter (Store.ownedBy (Store.currentMerchant st))
                      (payments (Store.state st)) = []).
    { apply filter_none. intros p Hp. apply ownedBy_false. now apply Hfresh. }
    unfold Store.currentMerchant in *.
    set (m := orElse _ _) in *.
    split.
    { unfold Store.getPaymentStats, Store.currentMerchant.
      cbn -[Store.ownedBy Store.hasId orElse].
      fold m. rewrite !ownedBy_mk, Hnone. reflexivity. }
    unfold Store.updatePaymentStatus, Store.getPayment, Store.currentMerchant.
    cbn -[Store.ownedBy Store.hasId orElse].
    fold m. rewrite !hasId_mk, !ownedBy_mk.
    cbn -[Store.ownedBy Store.hasId orElse].
    split; [reflexivity|].
    unfold Store.getPaymentStats, Store.currentMerchant.
    cbn -[Store.ownedBy Store.hasId orElse].
    fold m. rewrite !ownedBy_mk, Hnone.
    reflexivity.
Qed.

(** The scenario of C9 run on the store of merchant ["merchant_A"]. *)
Example getPaymentStats_coffee :
  let created := Store.createPayment 1000 "k3j9x0a1b" 5%Q "coffee" Scenario.merchantA in
  let paid :=
    Store.updatePaymentStatus 2000 "1000-k3j9x0a1b" PAID (Some "abc") (snd created) in
  fst paid = true /\
  Store.paidPayments (Store.getPaymentStats (snd paid)) = 1%nat /\
  Store.totalAmount (Store.getPaymentStats (snd paid)) = 5%Q /\
  Store.conversionRate (Store.getPaymentStats (snd paid)) = 100%Q.
Proof. repeat split. Qed.

(** The statistics of ["merchant_A"] on a ledger with one paid and two
    pending payments of its own, a failed and a cancelled one, and a paid
    payment of another merchant. *)
Example getPaymentStats_mixed_ledger :
  Store.getPaymentStats Scenario.mixedLedger =
    {| Store.totalPayments := 5; Store.paidPayments := 1;
       Store.pendingPayments := 2; Store.failedPayments := 1;
       Store.cancelledPayments := 1; Store.totalAmount := 5%Q;
       Store.conversionRate := (100 # 5)%Q |}.
Proof. reflexivity. Qed.

(** * The rate limiter *)

(** Membership in a concatenation, from a hypothesis or by position. *)
Ltac in_window :=
  apply in_or_app; simpl; first [ left; assumption | right; tauto | tauto ].

Section RateLimit.
Variable key : string.
Variable config : RateLimitConfig.

Local Abbreviation N := (maxAttempts config).
Local Abbreviation W := (windowMs config).

Lemma filter_all {A} (f : A -> bool) (l : list A) :
  (forall x, In x l -> f x = true) -> List.filter f l = l.
Proof.
  induction l as [|x l IH]; intros Hall; [reflexivity|].
  simpl. rewrite (Hall x) by (now left). f_equal. apply IH.
  intros y Hy. apply Hall. now right.
Qed.

(** One call when every recorded timestamp is still inside the window: it is
    allowed exactly when fewer than [maxAttempts] timestamps are recorded,
    and only then records its own time. *)
Lemma check_window_kept now attempts :
  (forall t, In t (RateLimiter.recorded key attempts) -> now - W < t) ->
  let full := Z.of_nat (length (RateLimiter.recorded key attempts)) <? N in
  RateLimiter.allowed (fst (RateLimiter.check now key config attempts)) = full /\
  RateLimiter.recorded key (snd (RateLimiter.check now key config attempts)) =
    if full then (RateLimiter.recorded key attempts ++ [now])%list
    else RateLimiter.recorded key attempts.
Proof.
  intros Hin. unfold RateLimiter.check, RateLimiter.recorded in *. simpl.
  rewrite filter_all.
  - split; [reflexivity|]. now rewrite lookup_insert_eq.
  - intros t Ht. apply Z.gtb_lt. now apply Hin.
Qed.

(** One call when every recorded timestamp has left the window: the window
    is pruned to nothing first. *)
Lemma check_window_expired now attempts :
  (forall t, In t (RateLimiter.recorded key attempts) -> t <= now - W) ->
  RateLimiter.allowed (fst (RateLimiter.check now key config attempts)) = (0 <? N) /\
  RateLimiter.recorded key (snd (RateLimiter.check now key config attempts)) =
    if 0 <? N then [now] else [].
Proof.
  intros Hout. unfold RateLimiter.check, RateLimiter.recorded in *. simpl.
  rewrite filter_none.
  - split; [reflexivity|]. now rewrite lookup_insert_eq.
  - intros t Ht. rewrite Z.gtb_ltb. apply Z.ltb_ge. now apply Hout.
Qed.

Lemma checks_app times1 times2 attempts :
  RateLimiter.checks (times1 ++ times2)%list key config attempts =
  let '(r1, a1) := RateLimiter.checks times1 key config attempts in
  let '(r2, a2) := RateLimiter.checks times2 key config a1 in
  ((r1 ++ r2)%list, a2).
Proof.
  revert attempts. induction times1 as [|t times1 IH]; intros attempts;
    cbn [RateLimiter.checks app].
  - now destruct (RateLimiter.checks times2 key config attempts).
  - destruct (RateLimiter.check t key config attempts) as [r a].
    rewrite IH. destruct (RateLimiter.checks times1 key config a) as [r1 a1].
    now destruct (RateLimiter.checks times2 key config a1).
Qed.

(** Calls that all fall in one window [start <= t < start + W], while the
    window has room: each is allowed and recorded. *)
Lemma checks_while_room start times attempts :
  (forall t, In t (RateLimiter.recorded key attempts ++ times)%list ->
             start <= t < start + W) ->
  Z.of_nat (length (RateLimiter.recorded key attempts) + length times) <= N ->
  fst (RateLimiter.checks times key config attempts) =
    repeat true (length times) /\
  RateLimiter.recorded key (snd (RateLimiter.checks times key config attempts)) =
    (RateLimiter.recorded key attempts ++ times)%list.
Proof.
  revert attempts. induction times as [|now times IH]; intros attempts Hwin Hroom.
  - simpl. now rewrite app_nil_r.
  - cbn [RateLimiter.checks length].
    destruct (check_window_kept now attempts) as [Hal Hrec].
    { intros t Ht.
      assert (start <= t < start + W) by (apply Hwin; in_window).
      assert (start <= now < start + W) by (apply Hwin; in_window).
      lia. }
    assert (Hfull : (Z.of_nat (length (RateLimiter.recorded key attempts)) <? N)
                    = true).
    { apply Z.ltb_lt. simpl in Hroom. lia. }
    rewrite Hfull in Hal, Hrec.
    destruct (RateLimiter.check now key config attempts) as [r a].
    cbn [fst snd] in Hal, Hrec.
    specialize (IH a).
    destruct (RateLimiter.checks times key config a) as [rs a2].
    cbn [fst snd repeat length] in *.
    rewrite Hrec in IH. destruct IH as [IH1 IH2].
    + intros t Ht. apply Hwin. rewrite <- app_assoc in Ht. exact Ht.
    + rewrite length_app. simpl. lia.
    + split; [now rewrite Hal, IH1|]. now rewrite IH2, <- app_assoc.
Qed.

End RateLimit.

(** C5. With [maxAttempts = N] and [windowMs = W], starting from an empty
    window for the key: of [N + 1] calls that fall in one window
    ([start <= t < start + W]) the first [N] are allowed and the last is
    denied; the recorded timestamps are those of the [N] allowed calls.  A
    later call made once [W] has elapsed past every recorded timestamp is
    allowed again (for [N >= 1]), the old timestamps having been pruned. *)
Theorem rate_limiter_sliding_window (key : string) (N : nat) (W : Z)
    (attempts : gmap string (list Z)) (start : Z) (times : list Z) (last : Z) :
  let config := {| maxAttempts := Z.of_nat N; windowMs := W |} in
  RateLimiter.recorded key attempts = [] ->
  length times = N ->
  (forall t, In t (times ++ [last])%list -> start <= t < start + W) ->
  let run := RateLimiter.checks (times ++ [last])%list key config attempts in
  fst run = (repeat true N ++ [false])%list /\
  RateLimiter.recorded key (snd run) = times /\
  (forall later,
      (0 < N)%nat ->
      (forall t, In t times -> t <= later - W) ->
      RateLimiter.allowed (fst (RateLimiter.check later key config (snd run)))
        = true /\
      RateLimiter.recorded key
        (snd (RateLimiter.check later key config (snd run))) = [later]).
Proof.
  intros config Hempty Hlen Hwin run. subst run.
  rewrite checks_app.
  destruct (checks_while_room key config start times attempts) as [Hans Hrec].
  { rewrite Hempty. simpl. intros t Ht. apply Hwin, in_or_app. now left. }
  { rewrite Hempty. simpl. lia. }
  destruct (RateLimiter.checks times key config attempts) as [r1 a1].
  cbn [fst snd] in Hans, Hrec. rewrite Hempty in Hrec. cbn [app] in Hrec.
  destruct (check_window_kept key config last a1) as [Hal Hkeep].
  { rewrite Hrec. intros t Ht.
    assert (start <= t < start + W) by (apply Hwin; in_window).
    assert (start <= last < start + W) by (apply Hwin; in_window).
    simpl. lia. }
  assert (Hfull : (Z.of_nat (length (RateLimiter.recorded key a1))
                   <? maxAttempts config) = false).
  { apply Z.ltb_ge. rewrite Hrec. simpl. lia. }
  rewrite Hfull in Hal, Hkeep.
  cbn [RateLimiter.checks].
  destruct (RateLimiter.check last key config a1) as [r a2].
  cbn [fst snd] in *. rewrite Hans, Hlen, Hal. split; [reflexivity|].
  rewrite Hkeep, Hrec. split; [reflexivity|].
  intros later Hpos Hgone.
  destruct (check_window_expired key config later a2) as [Hal' Hrec'].
  { rewrite Hkeep, Hrec. exact Hgone. }
  assert (Hn : (0 <? maxAttempts config) = true) by (apply Z.ltb_lt; simpl; lia).
  rewrite Hn in Hal', Hrec'. now split.
Qed.

Lemma rate_limiter_sliding_window_witness :
  let config := {| maxAttempts := 2; windowMs := 1000 |} in
  let run := RateLimiter.checks [0; 10; 20] "create_payment" config ∅ in
  fst run = [true; true; false] /\
  RateLimiter.recorded "create_payment" (snd run) = [0; 10] /\
  RateLimiter.allowed
    (fst (RateLimiter.check 1010 "create_payment" config (snd run))) = true.
Proof.
  assert (Hwin : forall t, In t ([0; 10] ++ [20])%list -> 0 <= t < 0 + 1000)
    by (intros t [<-|[<-|[<-|[]]]]; lia).
  assert (Hempty : RateLimiter.recorded "create_payment" ∅ = []) by reflexivity.
  destruct (rate_limiter_sliding_window "create_payment" 2 1000 ∅ 0 [0; 10] 20
              Hempty eq_refl Hwin) as (H1 & H2 & H3).
  intros config run.
  split; [exact H1|]. split; [exact H2|].
  apply (H3 1010); [lia|].
  intros t [<-|[<-|[]]]; lia.
Defined.

(** * Payment creation *)

Section CreatePayment.
Implicit Types (w : Operations.World) (env : Operations.Env).

Lemma providerFails_serverPayment r :
  Operations.providerFails r = true <->
  exists thrown, Operations.serverPayment r = inl thrown.
Proof.
  assert (Hyes : forall thrown : Thrown,
             true = true <-> exists t, inl (B:=Operations.ServerPayment) thrown = inl t)
    by (intros thrown; split; eauto).
  destruct r as [thrown|ok statusText contentType text body]; simpl.
  - apply Hyes.
  - destruct ok; simpl; [|apply Hyes].
    destruct (match contentType with
              | Some ct => negb (includes "application/json" ct)
              | None => true
              end); simpl; [apply Hyes|].
    destruct body as [thrown|[payment|]]; simpl; try apply Hyes.
    split; [discriminate|]. intros [t Ht]. discriminate.
Qed.

(** Both failure exits write one entry to the error trail and nothing
    else. *)
Lemma caught_spec env thrown w :
  let '(result, w') := Operations.caught env thrown w in
  Operations.success result = false /\
  Operations.data result = None /\
  Operations.error result = Some (messageOr "Failed to create payment" thrown) /\
  Operations.trackingId result = Some (generateTrackingId (Operations.logDraw env)) /\
  Operations.unifiedStore w' = Operations.unifiedStore w /\
  Operations.rateLimiter w' = Operations.rateLimiter w /\
  Operations.auditLogger w' = Operations.auditLogger w /\
  Operations.paymentCache w' = Operations.paymentCache w.
Proof. unfold Operations.caught. simpl. repeat split. Qed.

Lemma denied_spec env logged shown w :
  let '(result, w') := Operations.denied env logged shown w in
  Operations.success result = false /\
  Operations.data result = None /\
  Operations.error result = shown /\
  Operations.trackingId result = Some (generateTrackingId (Operations.logDraw env)) /\
  Operations.unifiedStore w' = Operations.unifiedStore w /\
  Operations.rateLimiter w' = Operations.rateLimiter w /\
  Operations.auditLogger w' = Operations.auditLogger w /\
  Operations.paymentCache w' = Operations.paymentCache w.
Proof. unfold Operations.denied. simpl. repeat split. Qed.

End CreatePayment.

(** C8. When the guard chain passes and the call to the payment backend
    fails, [createPayment] returns the failure result
    [{success: false, error, trackingId}] and leaves the store object, hence
    the payment list, exactly as it was; the payment cache and the audit
    trail are untouched as well.  ([createPayment] is a total function into
    results: every exception in its body is caught inside it.) *)
Theorem createPayment_provider_failure (env : Operations.Env)
    (amount : JsNumber.t) (note : string) (w : Operations.World) :
  Operations.guardsPass env amount note w = true ->
  Operations.providerFails (Operations.reply env) = true ->
  let result := fst (Operations.createPayment env amount note w) in
  let w' := snd (Operations.createPayment env amount note w) in
  Operations.success result = false /\
  Operations.data result = None /\
  (exists message, Operations.error result = Some message) /\
  Operations.trackingId result =
    Some (generateTrackingId (Operations.logDraw env)) /\
  Operations.unifiedStore w' = Operations.unifiedStore w /\
  payments (Store.state (Operations.unifiedStore w')) =
    payments (Store.state (Operations.unifiedStore w)) /\
  Operations.auditLogger w' = Operations.auditLogger w /\
  Operations.paymentCache w' = Operations.paymentCache w.
Proof.
  intros Hguards Hfails.
  apply providerFails_serverPayment in Hfails as [thrown Hthrown].
  unfold Operations.guardsPass in Hguards.
  apply andb_prop in Hguards as [Hguards Hsec].
  apply andb_prop in Hguards as [Hguards Hnote].
  apply andb_prop in Hguards as [Hrate Hamount].
  unfold Operations.createPayment.
  destruct (RateLimiter.check _ _ _ _) as [rateLimitCheck attempts].
  cbn [fst] in Hrate. rewrite Hrate, Hamount, Hnote.
  cbn [negb Operations.unifiedStore Operations.withRateLimiter].
  rewrite Hsec, Hthrown. cbn [negb].
  pose proof (caught_spec env thrown (Operations.withRateLimiter w attempts)) as H.
  destruct (Operations.caught env thrown _) as [result w'].
  cbn [fst snd]. cbn in H.
  destruct H as (H1 & H2 & H3 & H4 & H5 & H6 & H7 & H8).
  rewrite H5. repeat split; eauto.
Qed.

Lemma createPayment_provider_failure_witness :
  let run :=
    Operations.createPayment
      (OperationScenario.envAt 1000 OperationScenario.replyDown)
      OperationScenario.five "coffee" OperationScenario.world0 in
  Operations.success (fst run) = false /\
  Operations.unifiedStore (snd run) =
    Operations.unifiedStore OperationScenario.world0.
Proof.
  pose proof (createPayment_provider_failure
                (OperationScenario.envAt 1000 OperationScenario.replyDown)
                OperationScenario.five "coffee" OperationScenario.world0
                eq_refl eq_refl) as H.
  cbv zeta in H. destruct H as (H1 & _ & _ & _ & H5 & _).
  split; [exact H1 | exact H5].
Defined.

(** The ledger write of [createPaymentWithId] when no creation lock is held:
    the record is put in front of the list whatever the list holds, and the
    lock taken for it is released again. *)
Lemma createPaymentWithId_prepends {Num : Type} (st : Store.t Num) i
    (amount : Num) note createdAt :
  Store.processingLocks st = ∅ ->
  exists st',
    Store.createPaymentWithId i amount note createdAt st =
      (inr (Payment.mk i (Store.currentMerchant st) amount note PENDING
                       createdAt None None), st') /\
    payments (Store.state st') =
      Payment.mk i (Store.currentMerchant st) amount note PENDING createdAt
                 None None :: payments (Store.state st) /\
    Store.processingLocks st' = ∅.
Proof.
  intros Hlocks. unfold Store.createPaymentWithId. rewrite Hlocks.
  destruct (decide _) as [Hin|_]; [set_solver|].
  eexists. split; [reflexivity|]. split; [reflexivity|].
  simpl. now rewrite union_empty_r_L, difference_diag_L.
Qed.

(** The sibling [addPayment] does short-circuit on an id that is already
    stored. *)
Lemma addPayment_existing_id {Num : Type} (st : Store.t Num) (p q : Payment.t Num) :
  In q (payments (Store.state st)) -> Payment.id q = Payment.id p ->
  Store.addPayment p st = st.
Proof.
  intros Hin Hid. unfold Store.addPayment.
  destruct (List.find _ _) eqn:Hf; [reflexivity|].
  exfalso. eapply List.find_none in Hf; [|exact Hin].
  unfold Store.hasId in Hf. rewrite Hid, String.eqb_refl in Hf. discriminate.
Qed.

(** C2 (code evaluated at the failing input). Two [createPayment] calls in a
    row pass the guards and reach the ledger write with the backend id
    ["pay-1"]: both succeed, and the ledger then holds two records with that
    id. *)
Theorem createPayment_same_id_stored_twice :
  Operations.success (fst OperationScenario.afterFirst) = true /\
  Operations.success (fst OperationScenario.afterSecond) = true /\
  List.map Payment.id
    (payments (Store.state
                 (Operations.unifiedStore (snd OperationScenario.afterSecond))))
    = ["pay-1"; "pay-1"] /\
  length
    (List.filter (Store.hasId "pay-1")
       (payments (Store.state
                    (Operations.unifiedStore (snd OperationScenario.afterSecond)))))
    = 2%nat.
Proof. repeat split. Qed.

(** * Amount validation *)

(** The scenario amounts: [-1] and [1e7] are rejected, [3.1234567] passes,
    [3.12345678] is rejected. *)
Lemma validateAmount_scenarios :
  InputValidator.valid
    (InputValidator.validateAmount (JsNumber.Decimal true 1 0)) = false /\
  InputValidator.valid
    (InputValidator.validateAmount (JsNumber.Decimal false 1 7)) = false /\
  InputValidator.valid
    (InputValidator.validateAmount (JsNumber.Decimal false 31234567 (-7))) = true /\
  InputValidator.valid
    (InputValidator.validateAmount (JsNumber.Decimal false 312345678 (-8))) = false.
Proof. repeat split. Qed.

(** C6 (code evaluated at the failing input). The amount [0.00000001] has
    eight fractional digits; it prints as ["1e-8"], in which the code finds
    no decimal places, and [validateAmount] accepts it. *)
Theorem validateAmount_accepts_eight_fractional_digits :
  let amount := JsNumber.Decimal false 1 (-8) in
  JsNumber.canonical amount = true /\
  JsNumber.fractionalDigits amount = 8 /\
  JsNumber.toString amount = "1e-8" /\
  InputValidator.decimalPlaces amount = 0%nat /\
  InputValidator.validateAmount amount = InputValidator.ok /\
  InputValidator.specValidAmount amount = false.
Proof. repeat split. Qed.

Section AmountText.

Lemma orElse_empty_r a : orElse a "" = a.
Proof. unfold orElse. now destruct (String.eqb_spec a ""). Qed.

Lemma length_append (a b : string) :
  String.length (a ++ b) = (String.length a + String.length b)%nat.
Proof. induction a as [|c a IH]; simpl; [reflexivity|]. now rewrite IH. Qed.

Lemma length_zeros n : String.length (zeros n) = n.
Proof. induction n as [|n IH]; simpl; [reflexivity|]. now rewrite IH. Qed.

Lemma length_substring (n m : nat) (s : string) :
  (n + m <= String.length s)%nat -> String.length (String.substring n m s) = m.
Proof.
  revert n m. induction s as [|c s IH]; intros [|n] [|m] Hle; simpl in *;
    try reflexivity; try lia.
  - f_equal. apply (IH 0%nat m). simpl. lia.
  - apply (IH n 0%nat). lia.
  - apply (IH n (S m)). lia.
Qed.

Lemma noDot_append (a b : string) :
  noDot a = true -> noDot b = true -> noDot (a ++ b) = true.
Proof.
  induction a as [|c a IH]; simpl; [auto|].
  intros Ha Hb. apply andb_prop in Ha as [Hc Ha]. now rewrite Hc, IH.
Qed.

Lemma noDot_zeros n : noDot (zeros n) = true.
Proof. induction n; simpl; auto. Qed.

Lemma noDot_substring (n m : nat) (s : string) :
  noDot s = true -> noDot (String.substring n m s) = true.
Proof.
  revert n m. induction s as [|c s IH]; intros [|n] [|m] Hs; simpl in *;
    try reflexivity.
  - apply andb_prop in Hs as [Hc Hs]. now rewrite Hc, IH.
  - apply andb_prop in Hs as [_ Hs]. now apply IH.
  - apply andb_prop in Hs as [_ Hs]. now apply IH.
Qed.

Lemma noDot_string_of_uint u : noDot (NilEmpty.string_of_uint u) = true.
Proof. induction u; simpl; auto. Qed.

Lemma noDot_digits s : noDot (JsNumber.digits s) = true.
Proof. apply noDot_string_of_uint. Qed.

(** Text without a point is one piece. *)
Lemma split_noDot (a : string) : noDot a = true -> split "." a = [a].
Proof.
  induction a as [|c a IH]; simpl; [reflexivity|].
  intros Ha. apply andb_prop in Ha as [Hc Ha].
  apply negb_true_iff in Hc. rewrite Hc, IH by exact Ha. reflexivity.
Qed.

(** Text with one point is two pieces. *)
Lemma split_one_dot (a b : string) :
  noDot a = true -> noDot b = true -> split "." (a ++ String "." b) = [a; b].
Proof.
  induction a as [|c a IH]; simpl; intros Ha Hb.
  - now rewrite split_noDot.
  - apply andb_prop in Ha as [Hc Ha].
    apply negb_true_iff in Hc. rewrite Hc, IH by assumption. reflexivity.
Qed.

(** In positional notation the decimal places the code counts are the
    fractional digits of the number. *)
Lemma decimalPlaces_positional s e :
  JsNumber.positional (JsNumber.Decimal false s e) = true ->
  Z.of_nat (InputValidator.decimalPlaces (JsNumber.Decimal false s e)) =
  JsNumber.fractionalDigits (JsNumber.Decimal false s e).
Proof.
  unfold JsNumber.positional, InputValidator.decimalPlaces, JsNumber.toString,
    JsNumber.positiveToString, JsNumber.fractionalDigits.
  cbn [append]. rewrite orElse_empty_r.
  pose proof (noDot_digits s) as Hds.
  set (ds := JsNumber.digits s) in *.
  set (k := Z.of_nat (String.length ds)).
  cbv zeta. intros Hn. apply andb_prop in Hn as [Hlo Hhi].
  apply Z.ltb_lt in Hlo. apply Z.leb_le in Hhi.
  change ("" ++ ?x) with x.
  destruct (Z.leb_spec k (e + k)) as [Hk|Hk];
    destruct (Z.leb_spec (e + k) 21) as [H21|H21]; try lia; cbn [andb].
  - rewrite split_noDot by (apply noDot_append; [exact Hds|apply noDot_zeros]).
    simpl. lia.
  - destruct (Z.ltb_spec 0 (e + k)) as [H0|H0]; cbn [andb].
    + change ("." ++ ?b) with (String "." b).
      rewrite split_one_dot by (apply noDot_substring; exact Hds).
      cbn [nth]. rewrite length_substring; subst k; lia.
    + destruct (Z.ltb_spec (-6) (e + k)) as [H6|H6]; try lia.
      destruct (Z.leb_spec (e + k) 0) as [H0'|H0']; try lia. cbn [andb].
      change ("0." ++ zeros (Z.to_nat (- (e + k))) ++ ds)
        with ("0" ++ String "." (zeros (Z.to_nat (- (e + k))) ++ ds)).
      rewrite split_one_dot
        by first [ reflexivity
                 | apply noDot_append; [apply noDot_zeros|exact Hds] ].
      cbn [nth]. rewrite length_append, length_zeros. subst k. lia.
Qed.

Lemma negative_le_zero s e : JsNumber.le (JsNumber.Decimal true s e) 0 = true.
Proof.
  unfold JsNumber.le, JsNumber.compareZ.
  destruct (Z.leb_spec 0 e) as [He|He].
  - assert (Z.neg s * 10 ^ e < 0) as Hlt.
    { apply Z.mul_neg_pos; [reflexivity|]. now apply Z.pow_pos_nonneg. }
    apply Z.compare_lt_iff in Hlt. now rewrite Hlt.
  - reflexivity.
Qed.

(** Wherever [toString] prints positional notation, that is for every
    amount from [0.000001] up, [validateAmount] accepts exactly the amounts
    the specification admits. *)
Lemma validateAmount_positional (amount : JsNumber.t) :
  JsNumber.positional amount = true ->
  InputValidator.valid (InputValidator.validateAmount amount) =
  InputValidator.specValidAmount amount.
Proof.
  destruct amount as [|negative|negative|negative s e]; intros Hpos.
  - reflexivity.
  - now destruct negative.
  - reflexivity.
  - unfold InputValidator.validateAmount, InputValidator.specValidAmount.
    cbn [JsNumber.isNaN JsNumber.isFinite negb andb].
    destruct negative.
    + now rewrite negative_le_zero.
    + destruct (JsNumber.le _ 0); [reflexivity|].
      destruct (JsNumber.gt _ 1000000); [reflexivity|].
      cbn [negb andb].
      rewrite <- (decimalPlaces_positional s e Hpos).
      destruct (Nat.ltb_spec 7 (InputValidator.decimalPlaces (JsNumber.Decimal false s e)));
        destruct (Z.leb_spec
                    (Z.of_nat (InputValidator.decimalPlaces (JsNumber.Decimal false s e))) 7);
        try reflexivity; lia.
Qed.

End AmountText.

(** * Further properties of the ledger store *)

Section LedgerUpdates.
Context {Num : Type}.
Implicit Types (st : Store.t Num) (p : Payment.t Num).

Lemma updateFirst_length {A} (f : A -> bool) (g : A -> A) (l : list A) :
  length (updateFirst f g l) = length l.
Proof.
  induction l as [|x l IH]; simpl; [reflexivity|].
  destruct (f x); simpl; congruence.
Qed.

(** [updateFirst] leaves every projection alone that [g] leaves alone. *)
Lemma updateFirst_map {A B} (f : A -> bool) (g : A -> A) (h : A -> B) (l : list A) :
  (forall x, h (g x) = h x) ->
  List.map h (updateFirst f g l) = List.map h l.
Proof.
  intros Hg. induction l as [|x l IH]; simpl; [reflexivity|].
  destruct (f x); simpl; [now rewrite Hg|now rewrite IH].
Qed.

Lemma find_updateFirst {A} (f : A -> bool) (g : A -> A) (l : list A) x :
  List.find f l = Some x -> f (g x) = true ->
  List.find f (updateFirst f g l) = Some (g x).
Proof.
  induction l as [|y l IH]; simpl; [discriminate|].
  destruct (f y) eqn:Hy.
  - intros [= ->] Hgx. simpl. now rewrite Hgx.
  - intros Hf Hgx. simpl. rewrite Hy. now apply IH.
Qed.

(** X1. [updatePaymentStatus] refuses exactly when the id does not resolve
    to a record of the active merchant or resolves to a [PAID] one, and a
    refused call leaves the whole store object as it was: nothing saved,
    nobody notified. *)
Theorem updatePaymentStatus_refusal st now i s tx :
  (fst (Store.updatePaymentStatus now i s tx st) = false <->
   Store.getPayment i st = None \/
   exists p, Store.getPayment i st = Some p /\ Payment.status p = PAID) /\
  (fst (Store.updatePaymentStatus now i s tx st) = false ->
   snd (Store.updatePaymentStatus now i s tx st) = st).
Proof.
  unfold Store.updatePaymentStatus.
  destruct (Store.getPayment i st) as [p|] eqn:Hg; simpl.
  - destruct (PaymentStatus_eqb (Payment.status p) PAID) eqn:Hs; simpl.
    + apply PaymentStatus_eqb_eq in Hs. split; [|reflexivity].
      split; [|reflexivity]. intros _. right. eauto.
    + split; [|discriminate]. split; [discriminate|].
      intros [H|(q & [= <-] & Hq)]; [discriminate|].
      rewrite Hq in Hs. discriminate.
  - split; [|reflexivity]. split; auto.
Qed.

Lemma transition_identity now s tx p :
  Store.identity (Store.transition now s tx p) = Store.identity p.
Proof. now destruct s. Qed.

(** X2. Whatever the call and its outcome, [updatePaymentStatus] keeps the
    number and order of the records and, record by record, the id, the
    merchant, the amount, the note and the creation time; the domain
    toggles, the merchant, the session and the creation locks are left
    alone too. *)
Theorem updatePaymentStatus_frame st now i s tx :
  let st' := snd (Store.updatePaymentStatus now i s tx st) in
  List.map Store.identity (payments (Store.state st')) =
    List.map Store.identity (payments (Store.state st)) /\
  domainState (Store.state st') = domainState (Store.state st) /\
  merchant (Store.state st') = merchant (Store.state st) /\
  session (Store.state st') = session (Store.state st) /\
  lastUpdated (Store.state st') = lastUpdated (Store.state st) /\
  Store.processingLocks st' = Store.processingLocks st.
Proof.
  unfold Store.updatePaymentStatus.
  destruct (Store.getPayment i st) as [p|]; [|now repeat split].
  destruct (PaymentStatus_eqb _ _); [now repeat split|].
  simpl. repeat split.
  apply updateFirst_map. intros x. apply transition_identity.
Qed.

(** X3. An accepted update changes the record the id resolves to, and that
    record only as follows: the status becomes the new status; on [PAID] the
    payment time is the clock and the txid the one given (none if none was
    given); on any other status, payment time and txid stay as they were.
    The id then resolves to the updated record. *)
Theorem updatePaymentStatus_accepted st now i s tx :
  fst (Store.updatePaymentStatus now i s tx st) = true ->
  exists p,
    Store.getPayment i st = Some p /\
    Payment.status p <> PAID /\
    let p' := Store.transition now s tx p in
    Store.getPayment i (snd (Store.updatePaymentStatus now i s tx st)) = Some p' /\
    Payment.status p' = s /\
    (s = PAID -> Payment.paidAt p' = Some now /\ Payment.txid p' = tx) /\
    (s <> PAID -> Payment.paidAt p' = Payment.paidAt p /\
                  Payment.txid p' = Payment.txid p).
Proof.
  unfold Store.updatePaymentStatus.
  destruct (Store.getPayment i st) as [p|] eqn:Hg; [|discriminate].
  destruct (PaymentStatus_eqb (Payment.status p) PAID) eqn:Hs; [discriminate|].
  intros _. exists p. split; [reflexivity|]. split.
  { intros H. rewrite H in Hs. discriminate. }
  cbn [snd]. apply getPayment_Some in Hg as [Hf Hm].
  pose proof (find_hasId_Some _ _ _ Hf) as [_ Hid].
  split; [|split; [|split]].
  - apply getPayment_Some. split.
    + cbn. apply find_updateFirst; [exact Hf|].
      unfold Store.hasId. destruct s; simpl; rewrite Hid; apply String.eqb_refl.
    + change (Store.currentMerchant _) with (Store.currentMerchant st).
      destruct s; exact Hm.
  - now destruct s.
  - intros ->. split; reflexivity.
  - intros Hne. destruct s; try contradiction; split; reflexivity.
Qed.

End LedgerUpdates.

Lemma updatePaymentStatus_accepted_witness :
  exists p,
    Store.getPayment "pay-1" Scenario.created = Some p /\
    Payment.status p <> PAID /\
    Store.getPayment "pay-1"
      (snd (Store.updatePaymentStatus 2000 "pay-1" FAILED None Scenario.created))
      = Some (Store.transition 2000 FAILED None p).
Proof.
  destruct (updatePaymentStatus_accepted Scenario.created 2000 "pay-1" FAILED None
              eq_refl) as (p & H1 & H2 & H3 & _).
  exists p. repeat split; assumption.
Defined.

Section CallSequences.
Context {Num : Type}.
Implicit Types (st : Store.t Num) (p : Payment.t Num) (c : Store.Call Num).

Lemma createPayment_locks st now rnd amount note :
  Store.processingLocks st = ∅ ->
  Store.processingLocks (snd (Store.createPayment now rnd amount note st)) = ∅.
Proof.
  intros Hlocks. unfold Store.createPayment. rewrite Hlocks.
  destruct (decide _) as [Hin|_]; [set_solver|].
  simpl. now rewrite union_empty_r_L, difference_diag_L.
Qed.

Lemma createPaymentWithId_locks st i amount note createdAt :
  Store.processingLocks st = ∅ ->
  Store.processingLocks
    (snd (Store.createPaymentWithId i amount note createdAt st)) = ∅.
Proof.
  intros Hlocks.
  destruct (createPaymentWithId_prepends st i amount note createdAt Hlocks)
    as (st' & Heq & _ & Hl).
  now rewrite Heq.
Qed.

Lemma call_locks c st :
  Store.processingLocks st = ∅ -> Store.processingLocks (Store.call c st) = ∅.
Proof.
  intros Hlocks. destruct c; simpl; try exact Hlocks.
  - now apply createPayment_locks.
  - now apply createPaymentWithId_locks.
  - unfold Store.addPayment. now destruct (List.find _ _).
  - unfold Store.updatePaymentStatus.
    destruct (Store.getPayment id st); [|exact Hlocks].
    now destruct (PaymentStatus_eqb _ _).
  - unfold Store.setDomainEnabled. now destruct (negb _).
  - unfold Store.onStorage.
    destruct (String.eqb _ _); [|exact Hlocks].
    destruct (Store.newValue event); try exact Hlocks.
    now destruct (_ >? _).
  - unfold Store.flushSave. now destruct (Store.savePending st).
Qed.

(** X4. On a store object constructed by the module, whatever sequence of
    calls was made on it, no creation lock is held between calls; so
    [createPayment] and [createPaymentWithId] never throw "Payment creation
    already in progress", and each stores its record. *)
Theorem creation_never_blocked (calls : list (Store.Call Num)) st :
  Store.processingLocks st = ∅ ->
  let st' := Store.run calls st in
  Store.processingLocks st' = ∅ /\
  (forall now rnd amount note,
      exists payment st'',
        Store.createPayment now rnd amount note st' = (inr payment, st'') /\
        payments (Store.state st'') = payment :: payments (Store.state st')) /\
  (forall i amount note createdAt,
      exists payment st'',
        Store.createPaymentWithId i amount note createdAt st' = (inr payment, st'') /\
        payments (Store.state st'') = payment :: payments (Store.state st')).
Proof.
  intros Hlocks st'.
  assert (Hl : Store.processingLocks st' = ∅).
  { subst st'. revert st Hlocks. induction calls as [|c calls IH]; intros st Hlocks.
    - exact Hlocks.
    - simpl. apply IH. now apply call_locks. }
  split; [exact Hl|]. split.
  - intros now rnd amount note. unfold Store.createPayment. rewrite Hl.
    destruct (decide _) as [Hin|_]; [set_solver|].
    do 2 eexists. split; reflexivity.
  - intros i amount note createdAt.
    destruct (createPaymentWithId_prepends st' i amount note createdAt Hl)
      as (st'' & Heq & Hp & _).
    do 2 eexists. split; [exact Heq|exact Hp].
Qed.

Lemma lookup_In {A} (l : list A) n x : l !! n = Some x -> In x l.
Proof. intros H. apply list_elem_of_In. eapply list_elem_of_lookup_2. exact H. Qed.

Lemma In_lookup {A} (l : list A) x : In x l -> exists n, l !! n = Some x.
Proof. intros H. apply list_elem_of_In in H. now apply list_elem_of_lookup_1. Qed.

(** A call that assigns no new payment list keeps every stored [PAID]
    record, unchanged. *)
Lemma call_keeps_paid c st p :
  Store.replacesPayments c = false ->
  In p (payments (Store.state st)) -> Payment.status p = PAID ->
  In p (payments (Store.state (Store.call c st))).
Proof.
  intros Hc Hin Hpaid. destruct c; simpl in *; try discriminate; try exact Hin.
  - unfold Store.createPayment. destruct (decide _); [exact Hin|]. simpl. now right.
  - unfold Store.createPaymentWithId. destruct (decide _); [exact Hin|]. simpl. now right.
  - unfold Store.addPayment. destruct (List.find _ _); [exact Hin|]. simpl. now right.
  - apply In_lookup in Hin as [n Hn]. eapply lookup_In.
    apply updatePaymentStatus_keeps; [exact Hn|now left].
  - unfold Store.setDomainEnabled. now destruct (negb _).
  - unfold Store.flushSave. now destruct (Store.savePending st).
Qed.

(** X5. [PAID] is terminal and a paid record is never removed one by one:
    through any sequence of calls of the store's public methods other than
    [clearAllPayments] and [resetState], and of save timers firing, with no
    ["storage"] notification in between, a stored [PAID] record stays in
    the ledger with every field as it was. *)
Theorem paid_record_persists (calls : list (Store.Call Num)) st p :
  forallb (fun c => negb (Store.replacesPayments c)) calls = true ->
  In p (payments (Store.state st)) -> Payment.status p = PAID ->
  In p (payments (Store.state (Store.run calls st))).
Proof.
  revert st. induction calls as [|c calls IH]; intros st Hcalls Hin Hpaid.
  - exact Hin.
  - simpl in Hcalls. apply andb_prop in Hcalls as [Hc Hcalls].
    apply negb_true_iff in Hc. simpl. apply IH; [exact Hcalls| |exact Hpaid].
    now apply call_keeps_paid.
Qed.

End CallSequences.

Section LedgerMore.
Context {Num : Type}.
Implicit Types (st : Store.t Num) (p : Payment.t Num).

(** X6. [addPayment] is idempotent and never stores an id twice: a payment
    whose id is already in the list, under any merchant, is skipped without
    saving or notifying; otherwise the payment is put in front.  A ledger
    with pairwise distinct ids keeps them distinct. *)
Theorem addPayment_unique_ids st p :
  (In (Payment.id p) (List.map Payment.id (payments (Store.state st))) ->
   Store.addPayment p st = st) /\
  (~ In (Payment.id p) (List.map Payment.id (payments (Store.state st))) ->
   payments (Store.state (Store.addPayment p st)) = p :: payments (Store.state st)) /\
  Store.addPayment p (Store.addPayment p st) = Store.addPayment p st /\
  (NoDup (List.map Payment.id (payments (Store.state st))) ->
   NoDup (List.map Payment.id (payments (Store.state (Store.addPayment p st))))).
Proof.
  assert (Hyes : In (Payment.id p) (List.map Payment.id (payments (Store.state st))) ->
                 Store.addPayment p st = st).
  { intros Hin. apply in_map_iff in Hin as (q & Hid & Hq).
    now apply (addPayment_existing_id st p q). }
  assert (Hno : ~ In (Payment.id p) (List.map Payment.id (payments (Store.state st))) ->
                Store.addPayment p st =
                Store.notify SecPayments
                  (Store.saveToStorage
                     (Store.withPayments st (p :: payments (Store.state st))))).
  { intros Hnin. unfold Store.addPayment.
    destruct (List.find _ _) as [q|] eqn:Hf; [|reflexivity].
    exfalso. apply Hnin. apply find_hasId_Some in Hf as [Hq Hid].
    rewrite <- Hid. now apply in_map. }
  split; [exact Hyes|]. split; [intros Hnin; now rewrite Hno|]. split.
  - destruct (in_dec string_dec (Payment.id p)
                (List.map Payment.id (payments (Store.state st)))) as [Hin|Hnin].
    + rewrite (Hyes Hin). exact (Hyes Hin).
    + apply (addPayment_existing_id _ p p); [|reflexivity].
      rewrite (Hno Hnin). simpl. now left.
  - intros Hnd.
    destruct (in_dec string_dec (Payment.id p)
                (List.map Payment.id (payments (Store.state st)))) as [Hin|Hnin].
    + now rewrite (Hyes Hin).
    + rewrite (Hno Hnin). simpl. apply NoDup_cons. split; [|exact Hnd].
      intros H. apply Hnin. now apply list_elem_of_In.
Qed.

End LedgerMore.

Section LedgerListing.
Context {Num : Type}.
Implicit Types (st : Store.t Num) (p : Payment.t Num).

(** The result of [createPaymentWithId] when no creation lock is held. *)
Lemma createPaymentWithId_result st i amount note createdAt :
  Store.processingLocks st = ∅ ->
  let new := Payment.mk i (Store.currentMerchant st) amount note PENDING
                        createdAt None None in
  let r := Store.createPaymentWithId i amount note createdAt st in
  fst r = inr new /\
  Store.getPayment i (snd r) = Some new /\
  payments (Store.state (snd r)) = new :: payments (Store.state st).
Proof.
  intros Hlocks new r. subst r new.
  unfold Store.createPaymentWithId. rewrite Hlocks.
  destruct (decide _) as [Hin|_]; [set_solver|].
  cbn [fst snd]. split; [reflexivity|]. split; [|reflexivity].
  apply getPayment_Some. cbn. unfold Store.hasId at 1. cbn.
  rewrite String.eqb_refl. split; reflexivity.
Qed.

(** X7. A record made by [createPayment] or [createPaymentWithId] (no
    creation lock held) is [PENDING], without payment time or txid, scoped to
    the active merchant, and it is what [getPayment] returns for its id from
    then on, whatever the ledger held under that id before; every record
    stored before is still stored. *)
Theorem created_record_is_retrievable st :
  Store.processingLocks st = ∅ ->
  (forall i amount note createdAt,
      let new := Payment.mk i (Store.currentMerchant st) amount note PENDING
                            createdAt None None in
      let r := Store.createPaymentWithId i amount note createdAt st in
      fst r = inr new /\
      Store.getPayment i (snd r) = Some new /\
      payments (Store.state (snd r)) = new :: payments (Store.state st)) /\
  (forall now rnd amount note,
      let new := Payment.mk (showZ now ++ "-" ++ rnd) (Store.currentMerchant st)
                            amount note PENDING now None None in
      let r := Store.createPayment now rnd amount note st in
      fst r = inr new /\
      Store.getPayment (Payment.id new) (snd r) = Some new /\
      payments (Store.state (snd r)) = new :: payments (Store.state st)).
Proof.
  intros Hlocks. split.
  - intros i amount note createdAt. now apply createPaymentWithId_result.
  - intros now rnd amount note new r. subst r new.
    unfold Store.createPayment. rewrite Hlocks.
    destruct (decide _) as [Hin|_]; [set_solver|].
    cbn [fst snd]. split; [reflexivity|]. split; [|reflexivity].
    apply getPayment_Some. cbn. unfold Store.hasId at 1. cbn.
    rewrite String.eqb_refl. split; reflexivity.
Qed.

Lemma filter_filter_negb {A} (f : A -> bool) (l : list A) :
  List.filter f (List.filter (fun x => negb (f x)) l) = [].
Proof.
  induction l as [|x l IH]; [reflexivity|].
  simpl. destruct (f x) eqn:E; simpl; [exact IH|]. now rewrite E.
Qed.

(** X8. [clearAllPayments] removes exactly the records of the active
    merchant: afterwards its listing is empty and its statistics count
    nothing, while the records of every other merchant stay, in their
    order. *)
Theorem clearAllPayments_scoped `{JsArith Num} st :
  let st' := Store.clearAllPayments st in
  Store.getAllPayments st' = [] /\
  Store.totalPayments (Store.getPaymentStats st') = 0%nat /\
  payments (Store.state st') =
    List.filter (fun p => negb (Store.ownedBy (Store.currentMerchant st) p))
                (payments (Store.state st)) /\
  (forall p, Payment.merchantId p <> Store.currentMerchant st ->
             (In p (payments (Store.state st')) <-> In p (payments (Store.state st)))).
Proof.
  cbv zeta. unfold Store.getAllPayments, Store.getPaymentStats. cbn.
  change (Store.currentMerchant (Store.clearAllPayments st))
    with (Store.currentMerchant st).
  unfold Store.currentMerchant at 1 2. cbn.
  fold (Store.currentMerchant st). rewrite filter_filter_negb.
  repeat split; try reflexivity.
  - intros Hin. apply List.filter_In in Hin. tauto.
  - intros Hin. apply List.filter_In. split; [exact Hin|].
    apply negb_true_iff, ownedBy_false. assumption.
Qed.

(** Between two records with valid creation dates the comparator decides
    which may stand first. *)
Lemma byCreatedAtDesc_dated (x y : Payment.t Num) :
  Store.dated x = true -> Store.dated y = true ->
  (Store.byCreatedAtDesc x y <= 0 -> Store.newerFirst x y) /\
  (0 < Store.byCreatedAtDesc x y -> Store.newerFirst y x).
Proof.
  unfold Store.dated, Store.byCreatedAtDesc, Store.newerFirst.
  destruct (Payment.createdAt x), (Payment.createdAt y); simpl;
    try discriminate.
  intros _ _. split; lia.
Qed.

Lemma insertBy_sorted x (l : list (Payment.t Num)) :
  Store.dated x = true -> forallb Store.dated l = true ->
  Sorted Store.newerFirst l ->
  Sorted Store.newerFirst (insertBy Store.byCreatedAtDesc x l).
Proof.
  intros Hx. induction l as [|y l IH]; intros Hl Hs; simpl.
  - repeat constructor.
  - simpl in Hl. apply andb_prop in Hl as [Hy Hl].
    destruct (byCreatedAtDesc_dated x y Hx Hy) as [Hxy Hyx].
    destruct (Z.leb_spec (Store.byCreatedAtDesc x y) 0) as [Hle|Hgt].
    + constructor; [exact Hs|]. constructor. now apply Hxy.
    + apply Sorted_inv in Hs as [Hs Hhd].
      constructor; [now apply IH|].
      destruct l as [|z l]; simpl.
      * constructor. now apply Hyx.
      * destruct (Store.byCreatedAtDesc x z <=? 0).
        -- constructor. now apply Hyx.
        -- apply HdRel_inv in Hhd. now constructor.
Qed.

Lemma forallb_insertBy {A} (cmp : A -> A -> Z) (f : A -> bool) x (l : list A) :
  forallb f (insertBy cmp x l) = f x && forallb f l.
Proof.
  induction l as [|y l IH]; simpl; [reflexivity|].
  destruct (cmp x y <=? 0); simpl; [reflexivity|].
  rewrite IH. now destruct (f x), (f y).
Qed.

Lemma insertBy_Permutation {A} (cmp : A -> A -> Z) x (l : list A) :
  Permutation (insertBy cmp x l) (x :: l).
Proof.
  induction l as [|y l IH]; simpl; [reflexivity|].
  destruct (cmp x y <=? 0); [reflexivity|].
  rewrite IH. apply perm_swap.
Qed.

Lemma arraySort_Permutation {A} (cmp : A -> A -> Z) (l : list A) :
  Permutation (arraySort cmp l) l.
Proof.
  induction l as [|x l IH]; simpl; [reflexivity|].
  now rewrite insertBy_Permutation, IH.
Qed.

(** X9. [getAllPayments()] is a rearrangement of the active merchant's
    stored records, each as often as it is stored.  When the creation date
    of each of them is a valid date, they come ordered by creation time with
    the newest first. *)
Theorem getAllPayments_newest_first st :
  let mine :=
    List.filter (Store.ownedBy (Store.currentMerchant st))
                (payments (Store.state st)) in
  Permutation (Store.getAllPayments st) mine /\
  (forallb Store.dated mine = true ->
   Sorted Store.newerFirst (Store.getAllPayments st)).
Proof.
  unfold Store.getAllPayments. split; [apply arraySort_Permutation|].
  induction (List.filter _ _) as [|x l IH]; simpl; [constructor|].
  intros Hd. apply andb_prop in Hd as [Hx Hl].
  apply insertBy_sorted; [exact Hx| |now apply IH].
  clear IH. induction l as [|y l IH]; [reflexivity|].
  simpl in *. apply andb_prop in Hl as [Hy Hl].
  rewrite forallb_insertBy, Hy. now apply IH.
Qed.

(** The listing of ["merchant_A"] on a ledger stored out of order, with a
    record of another merchant in it. *)
Example getAllPayments_sorts :
  List.map Payment.id (payments (Store.state MoreScenario.unordered))
    = ["pay-2"; "pay-6"; "pay-4"; "pay-3"] /\
  List.map Payment.id (Store.getAllPayments MoreScenario.unordered)
    = ["pay-6"; "pay-3"; "pay-2"].
Proof. split; reflexivity. Qed.

Lemma filter_cons_length {A} (f : A -> bool) x (l : list A) :
  length (List.filter f (x :: l)) =
  ((if f x then 1 else 0) + length (List.filter f l))%nat.
Proof. simpl. now destruct (f x). Qed.

Lemma filter_status_partition (l : list (Payment.t Num)) :
  length l =
  (length (List.filter (Store.hasStatus PAID) l) +
   length (List.filter (Store.hasStatus PENDING) l) +
   length (List.filter (Store.hasStatus FAILED) l) +
   length (List.filter (Store.hasStatus CANCELLED) l))%nat.
Proof.
  induction l as [|x l IH]; [reflexivity|].
  rewrite !filter_cons_length. unfold Store.hasStatus at 1 3 5 7.
  cbn [length]. destruct (Payment.status x); cbn [PaymentStatus_eqb]; lia.
Qed.

(** X10. The four status counts of [getPaymentStats()] add up to
    [totalPayments], and [paidPayments] never exceeds it. *)
Theorem getPaymentStats_partition `{JsArith Num} st :
  let s := Store.getPaymentStats st in
  Store.totalPayments s =
    (Store.paidPayments s + Store.pendingPayments s + Store.failedPayments s +
     Store.cancelledPayments s)%nat /\
  (Store.paidPayments s <= Store.totalPayments s)%nat.
Proof.
  cbv zeta. unfold Store.getPaymentStats.
  cbn [Store.totalPayments Store.paidPayments Store.pendingPayments
       Store.failedPayments Store.cancelledPayments].
  set (l := List.filter (Store.ownedBy (Store.currentMerchant st))
                        (payments (Store.state st))).
  pose proof (filter_status_partition l) as Hp.
  split; [exact Hp|lia].
Qed.

End LedgerListing.

(** * Further properties of the toggles, the sync and the persistence *)

Section TogglesAndSync.
Context {Num : Type}.
Implicit Types (st : Store.t Num) (p : Payment.t Num).

(** X11. With the master toggle on, [setDomainEnabled(d, v)] returns [true];
    afterwards [d] reads [v], every other domain reads as before and the
    master is still on.  The one id that is not read back is ["__proto__"]
    when no flag is stored under it: the assignment then stores nothing, and
    the id goes on reading as the prototype object, which is truthy.
    [setMasterEnabled] changes the master and no domain flag, so switching
    the master off and on again brings every toggle back as it was. *)
Theorem domain_toggle_frame st d v :
  masterEnabled (domainState (Store.state st)) = true ->
  let st' := snd (Store.setDomainEnabled d v st) in
  fst (Store.setDomainEnabled d v st) = true /\
  (d <> "__proto__" \/ domains (domainState (Store.state st)) !! d <> None ->
   Store.isDomainEnabled d st' = JsBool v) /\
  (d = "__proto__" -> domains (domainState (Store.state st)) !! d = None ->
   domains (domainState (Store.state st')) = domains (domainState (Store.state st)) /\
   Store.isDomainEnabled d st' = PrototypeMember "__proto__") /\
  (forall d', d' <> d -> Store.isDomainEnabled d' st' = Store.isDomainEnabled d' st) /\
  Store.isMasterEnabled st' = true /\
  (forall d' m, Store.isDomainEnabled d' (Store.setMasterEnabled m st')
                = Store.isDomainEnabled d' st') /\
  payments (Store.state st') = payments (Store.state st).
Proof.
  intros Hon. cbv zeta. unfold Store.setDomainEnabled. rewrite Hon. cbn.
  unfold Store.isDomainEnabled, Store.isMasterEnabled. cbn.
  split; [reflexivity|]. split; [|split; [|split]].
  - intros Hd. now rewrite readProperty_assign.
  - intros -> Hnone. unfold assignProperty, readProperty.
    rewrite Hnone. cbn. now rewrite Hnone.
  - intros d' Hne. now rewrite readProperty_assign_other.
  - repeat split; try reflexivity; exact Hon.
Qed.

Lemma onStorage_cases st (event : Store.StorageEvent (Num:=Num)) :
  Store.onStorage event st = st \/
  exists S,
    String.eqb (Store.key event) Store.STORAGE_KEY = true /\
    Store.newValue event = Store.Snapshot S /\
    lastUpdated (Store.state st) < lastUpdated S /\
    Store.onStorage event st = Store.notifyAllListeners (Store.withState st S).
Proof.
  unfold Store.onStorage.
  destruct (String.eqb (Store.key event) Store.STORAGE_KEY) eqn:Hk; [|now left].
  destruct (Store.newValue event) as [| |S] eqn:Hv; [now left|now left|].
  destruct (Z.gtb_spec (lastUpdated S) (lastUpdated (Store.state st))) as [Hgt|Hle];
    [|now left].
  right. exists S. repeat split; auto.
Qed.

(** X12. The ["storage"] listener never moves the state's [lastUpdated]
    backwards; after it has run, the state is either the one before or the
    snapshot of the notification; running it again on the same notification
    changes nothing more.  The creation locks and the armed save timer are
    not touched. *)
Theorem onStorage_monotone st (event : Store.StorageEvent (Num:=Num)) :
  let st' := Store.onStorage event st in
  lastUpdated (Store.state st) <= lastUpdated (Store.state st') /\
  (Store.state st' = Store.state st \/
   Store.newValue event = Store.Snapshot (Store.state st')) /\
  Store.state (Store.onStorage event st') = Store.state st' /\
  Store.processingLocks st' = Store.processingLocks st /\
  Store.savePending st' = Store.savePending st.
Proof.
  cbv zeta. destruct (onStorage_cases st event) as [Heq|(S & Hk & Hv & Hgt & Heq)].
  - rewrite !Heq. repeat split; auto. lia.
  - rewrite Heq. cbn. repeat split; auto; [lia|].
    unfold Store.onStorage. rewrite Hk, Hv. cbn.
    now rewrite Z.gtb_ltb, Z.ltb_irrefl.
Qed.

End TogglesAndSync.

Lemma domain_toggle_frame_witness :
  let st := Store.setMasterEnabled true Scenario.merchantA in
  Store.isDomainEnabled "flashpay" (snd (Store.setDomainEnabled "flashpay" false st))
    = JsBool false.
Proof.
  destruct (domain_toggle_frame (Store.setMasterEnabled true Scenario.merchantA)
              "flashpay" false eq_refl) as (_ & H & _).
  apply H. left. discriminate.
Defined.

(** With the master toggle on, switching ["__proto__"] off is answered with
    [true], and the id goes on reading as truthy. *)
Example setDomainEnabled_proto :
  let st := Store.setMasterEnabled true Scenario.merchantA in
  let r := Store.setDomainEnabled "__proto__" false st in
  fst r = true /\
  Store.isDomainEnabled "__proto__" (snd r) = PrototypeMember "__proto__" /\
  truthy (Store.isDomainEnabled "__proto__" (snd r)) = true.
Proof. repeat split. Qed.

Section Persistence.
Context {Num : Type}.
Implicit Types (st : Store.t Num) (p : Payment.t Num).

Lemma merchant_key_not_state_key m :
  Store.getMerchantStorageKey m <> Store.STORAGE_KEY.
Proof. unfold Store.getMerchantStorageKey, Store.STORAGE_KEY. cbn. discriminate. Qed.

Lemma orElse_nonempty a b : a <> "" -> orElse a b = a.
Proof. intros Ha. unfold orElse. now destruct (String.eqb_spec a ""). Qed.



(** X14. The snapshot a save writes under the shared key carries no
    payments, and the ["storage"] listener does not reload the merchant's
    list: a tab that applies the snapshot of another tab's save is left with
    an empty payment list, its own records included. *)
Theorem snapshot_applied_empties_payments st now storage (tab : Store.t Num) :
  Store.savePending st = true ->
  lastUpdated (Store.state tab) < now ->
  exists snapshot,
    fst (Store.runSaveTimer now Store.Room storage st) !! Store.STORAGE_KEY
      = Some (Store.StateJson snapshot) /\
    payments snapshot = [] /\
    lastUpdated snapshot = now /\
    payments (Store.state (Store.onStorage (Store.snapshotEvent snapshot) tab)) = [] /\
    Store.getAllPayments (Store.onStorage (Store.snapshotEvent snapshot) tab) = [].
Proof.
  intros Hpending Hnewer.
  unfold Store.runSaveTimer, Store.flushSave. rewrite Hpending. cbn [fst].
  rewrite lookup_insert_ne by apply merchant_key_not_state_key.
  rewrite lookup_insert_eq. eexists. split; [reflexivity|].
  cbn [payments lastUpdated Store.state]. split; [reflexivity|]. split; [reflexivity|].
  unfold Store.onStorage, Store.snapshotEvent. cbn.
  destruct (Z.gtb_spec now (lastUpdated (Store.state tab))); [|lia].
  split; reflexivity.
Qed.

(** X15. The session decides whose payments are seen, the ledger is not
    touched by it: [updateSession] and [completeMerchantSetup] leave the
    payment list as it is; after [updateSession] with a non-empty
    [currentMerchantId] that id is the active merchant; after
    [completeMerchantSetup] the merchant's own id is; and switching the
    session to another merchant and back lists what was listed before. *)
Theorem session_switch_keeps_ledger st now (updates : Store.SessionUpdates) m :
  Store.new_currentMerchantId updates = Some m -> m <> "" ->
  let st' := Store.updateSession now updates st in
  payments (Store.state st') = payments (Store.state st) /\
  Store.currentMerchant st' = m /\
  (forall now' piUsername walletAddress,
      let st'' := Store.completeMerchantSetup now' piUsername walletAddress st in
      payments (Store.state st'') = payments (Store.state st) /\
      Store.currentMerchant st'' = merchantId (merchant (Store.state st))) /\
  (forall now' (back : Store.SessionUpdates),
      Store.new_currentMerchantId back = Some (Store.currentMerchant st) ->
      Store.getAllPayments (Store.updateSession now' back st')
      = Store.getAllPayments st).
Proof.
  intros Hnew Hm. cbv zeta. split; [reflexivity|]. split.
  { unfold Store.currentMerchant, Store.updateSession. cbn. rewrite Hnew. cbn.
    now apply orElse_nonempty. }
  split.
  { intros now' piUsername walletAddress. split; [reflexivity|].
    unfold Store.currentMerchant, Store.completeMerchantSetup. cbn.
    unfold orElse. now destruct (String.eqb _ _). }
  intros now' back Hback.
  unfold Store.getAllPayments. f_equal.
  change (payments (Store.state (Store.updateSession now' back _)))
    with (payments (Store.state st)).
  f_equal. f_equal.
  unfold Store.currentMerchant at 1. unfold Store.updateSession. cbn.
  rewrite Hback. cbn.
  unfold orElse at 1.
  destruct (String.eqb_spec (Store.currentMerchant st) "") as [E|E]; [|reflexivity].
  rewrite E. unfold Store.currentMerchant, orElse in E.
  destruct (String.eqb_spec (currentMerchantId (session (Store.state st))) "");
    congruence.
Qed.

End Persistence.

(** * Further properties of the trails and the guards *)

Section Trails.

Lemma lastN_length {A} (n : nat) (l : list A) :
  length (lastN n l) = Nat.min n (length l).
Proof. unfold lastN. rewrite List.length_skipn. lia. Qed.

Lemma lastN_suffix {A} (n : nat) (l : list A) :
  l = (firstn (length l - n) l ++ lastN n l)%list.
Proof. unfold lastN. symmetry. apply List.firstn_skipn. Qed.

Lemma lastN_snoc {A} (n : nat) (l : list A) x :
  (0 < n)%nat -> exists l', lastN n (l ++ [x])%list = (l' ++ [x])%list.
Proof.
  intros Hn. unfold lastN. rewrite List.length_app. simpl.
  rewrite List.skipn_app.
  replace (length l + 1 - n - length l)%nat with 0%nat by lia.
  simpl. eauto.
Qed.

(** The cut of a trail after a push: at most [max] entries, the pushed one
    last, nothing else dropped than the oldest entries. *)
Lemma pushBounded_spec {A} (max : nat) (x : A) (l : list A) :
  (0 < max)%nat ->
  let l' := if (max <? length (l ++ [x])%list)%nat
            then lastN max (l ++ [x])%list else (l ++ [x])%list in
  (length l' <= max)%nat /\
  (exists kept, l' = (kept ++ [x])%list) /\
  (exists dropped, (l ++ [x])%list = (dropped ++ l')%list) /\
  ((length l < max)%nat -> l' = (l ++ [x])%list).
Proof.
  intros Hmax. cbv zeta.
  destruct (Nat.ltb_spec max (length (l ++ [x])%list)) as [Hlt|Hge].
  - rewrite lastN_length. split; [lia|]. split; [now apply lastN_snoc|]. split.
    + eexists. apply lastN_suffix.
    + rewrite List.length_app in Hlt. simpl in Hlt. lia.
  - split; [exact Hge|]. split; [eauto|]. split; [now exists []|reflexivity].
Qed.

Lemma sliceFrom_last {A} (limit : Z) (l : list A) :
  0 < limit -> rev (sliceFrom (- limit) l) = firstn (Z.to_nat limit) (rev l).
Proof.
  intros Hpos. unfold sliceFrom.
  destruct (Z.ltb_spec (- limit) 0) as [_|]; [|lia].
  rewrite List.firstn_rev. f_equal. f_equal. lia.
Qed.

(** X16. The error trail is bounded: after [logError] it holds at most 100
    entries, the new entry is the latest, only the oldest entries are ever
    dropped, and none while there is room.  The call returns the tracking
    id it stored in the entry. *)
Theorem logError_bounded (d : Draw) (operation error : string)
    (details : option Thrown) (errors : list OperationError) :
  let entry :=
    {| oe_trackingId := generateTrackingId d; oe_timestamp := clock d;
       oe_operation := operation; oe_error := error; oe_details := details |} in
  let r := ErrorTracker.logError d operation error details errors in
  fst r = generateTrackingId d /\
  (length (snd r) <= 100)%nat /\
  (exists kept, snd r = (kept ++ [entry])%list) /\
  (exists dropped, (errors ++ [entry])%list = (dropped ++ snd r)%list) /\
  ((length errors < 100)%nat -> snd r = (errors ++ [entry])%list) /\
  ErrorTracker.getRecentErrors 1 (snd r) = [entry].
Proof.
  cbv zeta. unfold ErrorTracker.logError. cbn [fst snd].
  match goal with
  | |- context [ (?l ++ [?x])%list ] =>
      pose proof (pushBounded_spec ErrorTracker.maxErrors x l) as Hspec
  end.
  cbv zeta in Hspec. unfold ErrorTracker.maxErrors in *.
  destruct Hspec as (H1 & H2 & H3 & H4); [lia|].
  repeat split; try assumption.
  destruct H2 as [kept ->]. unfold ErrorTracker.getRecentErrors.
  rewrite sliceFrom_last by lia. now rewrite List.rev_app_distr.
Qed.

(** X17. [getRecentErrors(limit)] returns the latest [limit] entries,
    newest first, when [limit] is positive; for [limit = 0] it returns the
    whole trail, newest first, not an empty list; for a negative limit it
    leaves out the [-limit] oldest entries. *)
Theorem getRecentErrors_limit (limit : Z) (errors : list OperationError) :
  (0 < limit -> ErrorTracker.getRecentErrors limit errors
                = firstn (Z.to_nat limit) (rev errors)) /\
  ErrorTracker.getRecentErrors 0 errors = rev errors /\
  (limit < 0 -> ErrorTracker.getRecentErrors limit errors
                = rev (skipn (Z.to_nat (- limit)) errors)).
Proof.
  unfold ErrorTracker.getRecentErrors. split; [apply sliceFrom_last|]. split.
  - unfold sliceFrom. cbn. rewrite Z.min_l by lia. reflexivity.
  - intros Hneg. unfold sliceFrom.
    destruct (Z.ltb_spec (- limit) 0); [lia|]. f_equal.
    destruct (Z.le_ge_cases (- limit) (Z.of_nat (length errors))) as [Hle|Hge].
    + now rewrite Z.min_l.
    + rewrite Z.min_r by lia. rewrite Nat2Z.id.
      rewrite List.skipn_all. symmetry. apply List.skipn_all2. lia.
Qed.

End Trails.

Section AuditTrail.

Lemma find_app_none {A} (f : A -> bool) (l1 l2 : list A) :
  List.find f l1 = None -> List.find f (l1 ++ l2)%list = List.find f l2.
Proof.
  induction l1 as [|x l1 IH]; simpl; [reflexivity|].
  destruct (f x); [discriminate|exact IH].
Qed.

Lemma find_none_suffix {A} (f : A -> bool) (l1 l2 : list A) :
  List.find f (l1 ++ l2)%list = None -> List.find f l2 = None.
Proof.
  induction l1 as [|x l1 IH]; simpl; [auto|].
  destruct (f x); [discriminate|exact IH].
Qed.

(** X18. The audit trail is bounded by 200 entries with the new entry
    latest, and an entry can be fetched by the tracking id [log] returned,
    provided no older entry carries the same id ([getAuditById] returns the
    oldest match). *)
Theorem audit_log_bounded (d : Draw) (operation : string)
    (details : AuditDetails) (outcome : Outcome) (userId : option string)
    (entries : list AuditEntry) :
  AuditLogger.getAuditById (generateTrackingId d) entries = None ->
  let entry :=
    {| ae_trackingId := generateTrackingId d; ae_timestamp := clock d;
       ae_operation := operation; ae_userId := userId; ae_details := details;
       ae_outcome := outcome |} in
  let r := AuditLogger.log d operation details outcome userId entries in
  (length (snd r) <= 200)%nat /\
  (exists kept, snd r = (kept ++ [entry])%list) /\
  AuditLogger.getAuditById (fst r) (snd r) = Some entry /\
  AuditLogger.getRecentAudits 1 (snd r) = [entry].
Proof.
  intros Hfresh. cbv zeta. unfold AuditLogger.log. cbn [negb fst snd
    ENABLE_AUDIT_LOGGING OPERATIONAL_FLAGS].
  match goal with
  | |- context [ (?l ++ [?x])%list ] =>
      pose proof (pushBounded_spec AuditLogger.maxEntries x l) as Hspec
  end.
  cbv zeta in Hspec. unfold AuditLogger.maxEntries in *.
  destruct Hspec as (H1 & H2 & H3 & _); [lia|].
  split; [exact H1|]. split; [exact H2|].
  destruct H2 as [kept Hkept]. destruct H3 as [dropped Hdropped].
  rewrite Hkept in *. split.
  - rewrite List.app_assoc in Hdropped. apply List.app_inv_tail in Hdropped.
    subst entries. unfold AuditLogger.getAuditById in *.
    apply find_none_suffix in Hfresh.
    rewrite find_app_none by exact Hfresh.
    simpl. now rewrite String.eqb_refl.
  - unfold AuditLogger.getRecentAudits. rewrite sliceFrom_last by lia.
    now rewrite List.rev_app_distr.
Qed.

End AuditTrail.

Section RateLimitMore.
Variable key : string.
Variable config : RateLimitConfig.

Lemma filter_length_le {A} (f : A -> bool) (l : list A) :
  (length (List.filter f l) <= length l)%nat.
Proof. induction l as [|x l IH]; simpl; [lia|]. destruct (f x); simpl; lia. Qed.

(** X19. One [check] at time [now], whatever the map holds.  Only the
    entry of the key is rewritten.  Every timestamp kept for the key is the
    call's own or a recorded one younger than [windowMs]; a denied call
    records nothing.  The number of timestamps never grows beyond the
    larger of [maxAttempts] and what was recorded; [remainingAttempts] is
    what is left of [maxAttempts] after the call, never negative, and [0]
    when the call is denied. *)
Theorem check_window_invariants now (attempts : gmap string (list Z)) :
  let r := RateLimiter.check now key config attempts in
  let before := RateLimiter.recorded key attempts in
  let after := RateLimiter.recorded key (snd r) in
  (forall other, other <> key ->
     RateLimiter.recorded other (snd r) = RateLimiter.recorded other attempts) /\
  (forall t, In t after ->
     t = now \/ (In t before /\ now - windowMs config < t)) /\
  (RateLimiter.allowed (fst r) = false ->
     after = List.filter (fun t => t >? now - windowMs config) before /\
     RateLimiter.remainingAttempts (fst r) = 0) /\
  (RateLimiter.allowed (fst r) = true -> exists kept, after = (kept ++ [now])%list) /\
  Z.of_nat (length after) <= Z.max (maxAttempts config) (Z.of_nat (length before)) /\
  RateLimiter.remainingAttempts (fst r) =
    Z.max 0 (maxAttempts config - Z.of_nat (length after)).
Proof.
  cbv zeta. unfold RateLimiter.check, RateLimiter.recorded.
  cbn [negb ENABLE_RATE_LIMITING OPERATIONAL_FLAGS fst snd
       RateLimiter.allowed RateLimiter.remainingAttempts].
  rewrite lookup_insert_eq. cbn [default].
  set (before := default [] (attempts !! key)).
  set (recent := List.filter (fun t => t >? now - windowMs config) before).
  pose proof (filter_length_le (fun t => t >? now - windowMs config) before) as Hlen.
  fold recent in Hlen.
  assert (Hrecent : forall t, In t recent -> In t before /\ now - windowMs config < t).
  { intros t Ht. apply List.filter_In in Ht as [Hin Hgt].
    split; [exact Hin|]. now apply Z.gtb_lt in Hgt. }
  split; [intros other Hne; now rewrite lookup_insert_ne|].
  destruct (Z.ltb_spec (Z.of_nat (length recent)) (maxAttempts config))
    as [Hroom|Hfull]; cbv iota.
  - split.
    { intros t Ht. apply in_app_or in Ht as [Ht|[<-|[]]]; [right; auto|now left]. }
    split; [discriminate|]. split; [eauto|].
    unfold id. rewrite !List.length_app. cbn [length]. split; [lia|reflexivity].
  - unfold id. split; [intros t Ht; right; auto|].
    split; [intros _; split; [reflexivity|lia]|].
    split; [discriminate|]. split; [lia|reflexivity].
Qed.

(** X20. [reset(key)] forgets the key's history: the next [check] for the
    key is allowed exactly when [maxAttempts] is positive, however many
    attempts were recorded, and other keys keep their history. *)
Theorem reset_then_check now (attempts : gmap string (list Z)) :
  let r := RateLimiter.check now key config (RateLimiter.reset key attempts) in
  RateLimiter.allowed (fst r) = (0 <? maxAttempts config) /\
  RateLimiter.recorded key (snd r) = (if 0 <? maxAttempts config then [now] else []) /\
  (forall other, other <> key ->
     RateLimiter.recorded other (RateLimiter.reset key attempts)
     = RateLimiter.recorded other attempts).
Proof.
  cbv zeta. split; [|split].
  - apply check_window_expired. unfold RateLimiter.recorded, RateLimiter.reset.
    rewrite lookup_delete_eq. intros t [].
  - apply check_window_expired. unfold RateLimiter.recorded, RateLimiter.reset.
    rewrite lookup_delete_eq. intros t [].
  - intros other Hne. unfold RateLimiter.recorded, RateLimiter.reset.
    now rewrite lookup_delete_ne.
Qed.

End RateLimitMore.

Section IdValidation.

Lemma dropWhile_nil {A} (f : A -> bool) (l : list A) :
  dropWhile f l = [] <-> forallb f l = true.
Proof.
  induction l as [|x l IH]; simpl; [tauto|].
  destruct (f x); simpl; [exact IH|]. split; discriminate.
Qed.

Lemma dropWhile_suffix {A} (f : A -> bool) (l : list A) :
  exists dropped, l = (dropped ++ dropWhile f l)%list /\ forallb f dropped = true.
Proof.
  induction l as [|x l IH]; simpl; [now exists []|].
  destruct (f x) eqn:Hx.
  - destruct IH as (dropped & Hl & Hall). exists (x :: dropped). simpl.
    rewrite Hx, Hall. split; [now f_equal|reflexivity].
  - now exists [].
Qed.

Lemma forallb_rev {A} (f : A -> bool) (l : list A) :
  forallb f (rev l) = forallb f l.
Proof.
  induction l as [|x l IH]; simpl; [reflexivity|].
  rewrite List.forallb_app, IH. simpl. rewrite andb_true_r. apply andb_comm.
Qed.

Lemma trim_empty (s : JsString.t) :
  (length (JsString.trim s) =? 0)%nat = JsString.blank s.
Proof.
  unfold JsString.trim, JsString.blank. rewrite List.length_rev.
  destruct (dropWhile_suffix JsString.isWhiteSpace s) as (d1 & Hl & Hd1).
  destruct (forallb JsString.isWhiteSpace s) eqn:Hall.
  - apply dropWhile_nil in Hall. rewrite Hall. reflexivity.
  - destruct (dropWhile JsString.isWhiteSpace
                (rev (dropWhile JsString.isWhiteSpace s))) eqn:Hdrop;
      [|reflexivity].
    exfalso. apply dropWhile_nil in Hdrop. rewrite forallb_rev in Hdrop.
    rewrite Hl, List.forallb_app, Hd1, Hdrop in Hall. discriminate.
Qed.

Lemma length_ofString (s : string) :
  length (JsString.ofString s) = String.length s.
Proof.
  unfold JsString.ofString. rewrite List.length_map.
  induction s as [|c s IH]; simpl; congruence.
Qed.

(** X21. [validatePaymentId] accepts exactly the texts that are not blank
    and at most 100 UTF-16 code units long, a text being blank when it is
    empty or consists of white space only (the code points [trim] removes,
    the no-break space among them).  [getPaymentById] answers for such ids
    only: for a blank or longer id it returns nothing, even when a record
    with that id is stored; for any other id it returns what the store's
    merchant-scoped [getPayment] returns. *)
Theorem getPaymentById_validates :
  (forall id : JsString.t,
      InputValidator.valid (InputValidator.validatePaymentIdText id)
      = negb (JsString.blank id) && (length id <=? 100)%nat) /\
  (forall (id : string) (w : Operations.World),
      Operations.getPaymentById id w =
        if negb (JsString.blank (JsString.ofString id)) &&
           (String.length id <=? 100)%nat
        then Store.getPayment id (Operations.unifiedStore w)
        else None).
Proof.
  assert (Hvalid : forall id : JsString.t,
            InputValidator.valid (InputValidator.validatePaymentIdText id)
            = negb (JsString.blank id) && (length id <=? 100)%nat).
  { intros id. unfold InputValidator.validatePaymentIdText.
    rewrite trim_empty, Nat.leb_antisym.
    destruct (JsString.blank id); [reflexivity|].
    now destruct (100 <? length id)%nat. }
  split; [exact Hvalid|].
  intros id w. unfold Operations.getPaymentById, InputValidator.validatePaymentId.
  rewrite Hvalid, length_ofString.
  now destruct (negb _ && _).
Qed.

(** A no-break space alone is refused as blank; forty euro signs, forty
    code units, are accepted; so is ["pay-1"]. *)
Example validatePaymentId_texts :
  InputValidator.validatePaymentIdText [160%N]
    = InputValidator.invalid "Payment ID is required" /\
  InputValidator.validatePaymentIdText (repeat 8364%N 40) = InputValidator.ok /\
  InputValidator.validatePaymentIdText (repeat 97%N 101)
    = InputValidator.invalid "Payment ID is invalid" /\
  InputValidator.validatePaymentId "pay-1" = InputValidator.ok.
Proof. repeat split. Qed.

End IdValidation.

Section Guards.
Context {Num : Type}.

(** X22. What the pre-operation check looks at: with the shipped flags it
    passes exactly when the domain named reads as enabled (what
    [isDomainEnabled] returns for it is truthy), and always when no (or an
    empty) domain is named.  The master toggle and the wallet
    connection do not enter: the check gives the same answer for any master
    value and any wallet status. *)
Theorem preOperationCheck_domain_only (st : Store.t Num)
    (draws : Draw * Draw * Draw) (operation : string) (domainId : option string) :
  passed (SecurityGuard.preOperationCheck st draws operation domainId) =
    match domainId with
    | Some d =>
        if String.eqb d "" then true else truthy (Store.isDomainEnabled d st)
    | None => true
    end /\
  (forall enabled,
      passed (SecurityGuard.preOperationCheck (Store.setMasterEnabled enabled st)
                draws operation domainId)
      = passed (SecurityGuard.preOperationCheck st draws operation domainId)) /\
  (forall updates,
      passed (SecurityGuard.preOperationCheck (Store.updateWalletStatus updates st)
                draws operation domainId)
      = passed (SecurityGuard.preOperationCheck st draws operation domainId)).
Proof.
  assert (Hchar : forall st' : Store.t Num,
    passed (SecurityGuard.preOperationCheck st' draws operation domainId) =
    match domainId with
    | Some d =>
        if String.eqb d "" then true else truthy (Store.isDomainEnabled d st')
    | None => true
    end).
  { intros st'. destruct draws as [[own master] domain].
    unfold SecurityGuard.preOperationCheck, SecurityGuard.checkMasterToggle,
      SecurityGuard.checkDomainAccess. cbn.
    destruct domainId as [d|]; [|reflexivity].
    destruct (String.eqb d ""); [reflexivity|].
    now destruct (truthy (Store.isDomainEnabled d st')). }
  split; [apply Hchar|]. split; intros; rewrite !Hchar; reflexivity.
Qed.

End Guards.

(** * Further properties of payment creation *)

Section CreateMore.
Implicit Types (w : Operations.World) (env : Operations.Env).

Lemma preOperationCheck_reason {Num} (st : Store.t Num) draws operation domainId :
  passed (SecurityGuard.preOperationCheck st draws operation domainId) = false ->
  exists message,
    reason (SecurityGuard.preOperationCheck st draws operation domainId)
    = Some message.
Proof.
  destruct draws as [[own master] domain].
  unfold SecurityGuard.preOperationCheck, SecurityGuard.checkMasterToggle,
    SecurityGuard.checkDomainAccess. cbn.
  destruct domainId as [d|]; [|discriminate].
  destruct (String.eqb d ""); [discriminate|].
  destruct (truthy (Store.isDomainEnabled d st)); cbn; [discriminate|eauto].
Qed.

Lemma validateAmount_error amount :
  InputValidator.valid (InputValidator.validateAmount amount) = false ->
  exists message,
    InputValidator.error (InputValidator.validateAmount amount) = Some message.
Proof.
  unfold InputValidator.validateAmount.
  repeat match goal with
         | |- context [ if ?b then _ else _ ] => destruct b
         end; cbn; try discriminate; eauto.
Qed.

Lemma validateNote_error note :
  InputValidator.valid (InputValidator.validateNote note) = false ->
  exists message,
    InputValidator.error (InputValidator.validateNote note) = Some message.
Proof.
  unfold InputValidator.validateNote.
  destruct (500 <? String.length note)%nat; cbn; [eauto|discriminate].
Qed.

(** The rate limiter is consulted first, by every call. *)
Lemma createPayment_rateLimiter env amount note w :
  Operations.rateLimiter (snd (Operations.createPayment env amount note w)) =
  snd (RateLimiter.check (Operations.rateClock env) "create_payment"
         Operations.RATE_LIMITS_CREATE_PAYMENT (Operations.rateLimiter w)).
Proof.
  unfold Operations.createPayment.
  destruct (RateLimiter.check _ _ _ _) as [r attempts]. cbn [snd].
  repeat match goal with
         | |- context [ if ?b then _ else _ ] => destruct b
         | |- context [ match ?x with inl _ => _ | inr _ => _ end ] => destruct x
         | |- context [ let '(_, _) := ?x in _ ] => destruct x
         end; reflexivity.
Qed.

End CreateMore.

(** X23. A [createPayment] that passes the guards, gets a payment from the
    backend and finds no creation lock held succeeds: the result carries a
    [PENDING] record under the backend's id and creation time, scoped to the
    active merchant, with the amount and note given; the store's
    [getPayment] returns that record for the id; one audit entry with the
    returned tracking id is the latest of the audit trail; the error trail
    is untouched.  The record is mirrored in the payment cache when the
    cache can be written (a browser whose [setItem] does not throw) and the
    creation date is valid; otherwise the cache is left as it was, and the
    call succeeds all the same. *)
Theorem createPayment_success (env : Operations.Env) (amount : JsNumber.t)
    (note : string) (w : Operations.World) (sp : Operations.ServerPayment) :
  Operations.guardsPass env amount note w = true ->
  Operations.serverPayment (Operations.reply env) = inr sp ->
  Store.processingLocks (Operations.unifiedStore w) = ∅ ->
  let r := Operations.createPayment env amount note w in
  let new :=
    Payment.mk (Operations.sp_id sp)
               (Store.currentMerchant (Operations.unifiedStore w))
               amount note PENDING (Operations.sp_createdAt sp) None None in
  fst r = {| Operations.success := true; Operations.data := Some new;
             Operations.error := None;
             Operations.trackingId :=
               Some (generateTrackingId (Operations.logDraw env)) |} /\
  Store.getPayment (Operations.sp_id sp) (Operations.unifiedStore (snd r))
    = Some new /\
  payments (Store.state (Operations.unifiedStore (snd r))) =
    new :: payments (Store.state (Operations.unifiedStore w)) /\
  (Operations.cacheStorage env = Operations.Writable ->
   JsDate.isValid (Operations.sp_createdAt sp) = true ->
   Operations.paymentCache (snd r) =
     <["flashpay_payment_" ++ Operations.sp_id sp := new]>
       (Operations.paymentCache w)) /\
  (Operations.cacheStorage env <> Operations.Writable \/
   JsDate.isValid (Operations.sp_createdAt sp) = false ->
   Operations.paymentCache (snd r) = Operations.paymentCache w) /\
  (exists kept entry,
      Operations.auditLogger (snd r) = (kept ++ [entry])%list /\
      ae_trackingId entry = generateTrackingId (Operations.logDraw env) /\
      ae_outcome entry = success_ /\
      ad_paymentId (ae_details entry) = Operations.sp_id sp) /\
  Operations.errorTracker (snd r) = Operations.errorTracker w.
Proof.
  intros Hguards Hreply Hlocks.
  unfold Operations.guardsPass in Hguards.
  apply andb_prop in Hguards as [Hguards Hsec].
  apply andb_prop in Hguards as [Hguards Hnote].
  apply andb_prop in Hguards as [Hrate Hamount].
  pose proof (createPaymentWithId_result (Operations.unifiedStore w)
                (Operations.sp_id sp) amount note (Operations.sp_createdAt sp)
                Hlocks) as Hcreate.
  cbv zeta in Hcreate. destruct Hcreate as (Hres & Hget & Hpay).
  cbv zeta. unfold Operations.createPayment.
  destruct (RateLimiter.check _ _ _ _) as [rateLimitCheck attempts].
  cbn [fst] in Hrate. rewrite Hrate, Hamount, Hnote.
  cbn [negb Operations.unifiedStore Operations.withRateLimiter].
  rewrite Hsec, Hreply. cbn [negb].
  destruct (Store.createPaymentWithId _ _ _ _ _) as [created store].
  cbn [fst snd] in Hres, Hget, Hpay. subst created.
  unfold AuditLogger.log.
  cbn [negb ENABLE_AUDIT_LOGGING OPERATIONAL_FLAGS fst snd
       Operations.unifiedStore Operations.paymentCache Operations.auditLogger
       Operations.errorTracker Operations.withRateLimiter Payment.id
       Payment.merchantId].
  split; [reflexivity|]. split; [exact Hget|]. split; [exact Hpay|].
  split.
  { intros Hstorage Hdate. unfold Operations.cachePayment.
    rewrite Hstorage. cbn [Payment.createdAt Payment.id].
    now destruct (Operations.sp_createdAt sp). }
  split.
  { intros Hno. unfold Operations.cachePayment. cbn [Payment.createdAt].
    destruct (Operations.cacheStorage env), (Operations.sp_createdAt sp);
      try reflexivity; destruct Hno as [Hno|Hno]; try discriminate;
      now contradiction Hno. }
  split; [|reflexivity].
  match goal with
  | |- context [ (?l ++ [?x])%list ] =>
      pose proof (pushBounded_spec AuditLogger.maxEntries x l) as Hspec
  end.
  cbv zeta in Hspec. unfold AuditLogger.maxEntries in *.
  destruct Hspec as (_ & [kept Hkept] & _); [lia|].
  eexists kept, _. split; [exact Hkept|]. repeat split.
Qed.

(** X24. Every failure of [createPayment], whichever guard or step caused
    it, has the same shape and the same footprint: the result carries a
    message and the tracking id of exactly one new entry, the latest, of the
    error trail, and the store object, the audit trail and the payment cache
    are as before the call.  A success leaves the error trail as it was. *)
Theorem createPayment_failure_footprint (env : Operations.Env)
    (amount : JsNumber.t) (note : string) (w : Operations.World) :
  let r := Operations.createPayment env amount note w in
  (Operations.success (fst r) = false ->
   Operations.data (fst r) = None /\
   (exists message, Operations.error (fst r) = Some message) /\
   Operations.trackingId (fst r) =
     Some (generateTrackingId (Operations.logDraw env)) /\
   (exists kept entry,
       Operations.errorTracker (snd r) = (kept ++ [entry])%list /\
       oe_trackingId entry = generateTrackingId (Operations.logDraw env) /\
       oe_operation entry = "createPayment") /\
   Operations.unifiedStore (snd r) = Operations.unifiedStore w /\
   Operations.auditLogger (snd r) = Operations.auditLogger w /\
   Operations.paymentCache (snd r) = Operations.paymentCache w) /\
  (Operations.success (fst r) = true ->
   Operations.errorTracker (snd r) = Operations.errorTracker w).
Proof.
  assert (Hlog : forall d operation error details errors,
             exists kept entry,
               snd (ErrorTracker.logError d operation error details errors)
                 = (kept ++ [entry])%list /\
               oe_trackingId entry = generateTrackingId d /\
               oe_operation entry = operation).
  { intros d operation error details errors. unfold ErrorTracker.logError.
    cbn [snd].
    match goal with
    | |- context [ (?l ++ [?x])%list ] =>
        pose proof (pushBounded_spec ErrorTracker.maxErrors x l) as Hspec
    end.
    cbv zeta in Hspec. unfold ErrorTracker.maxErrors in *.
    destruct Hspec as (_ & [kept Hkept] & _); [lia|].
    eexists kept, _. split; [exact Hkept|]. split; reflexivity. }
  assert (Hdenied : forall logged message w0,
    let r := Operations.denied env logged (Some message) w0 in
    (Operations.success (fst r) = false ->
     Operations.data (fst r) = None /\
     (exists m, Operations.error (fst r) = Some m) /\
     Operations.trackingId (fst r) =
       Some (generateTrackingId (Operations.logDraw env)) /\
     (exists kept entry,
         Operations.errorTracker (snd r) = (kept ++ [entry])%list /\
         oe_trackingId entry = generateTrackingId (Operations.logDraw env) /\
         oe_operation entry = "createPayment") /\
     Operations.unifiedStore (snd r) = Operations.unifiedStore w0 /\
     Operations.auditLogger (snd r) = Operations.auditLogger w0 /\
     Operations.paymentCache (snd r) = Operations.paymentCache w0) /\
    (Operations.success (fst r) = true ->
     Operations.errorTracker (snd r) = Operations.errorTracker w0)).
  { intros logged message w0. cbv zeta. unfold Operations.denied.
    cbn. split; [|discriminate]. intros _.
    repeat split; eauto. apply (Hlog _ _ _ None). }
  assert (Hcaught : forall thrown w0,
    let r := Operations.caught env thrown w0 in
    (Operations.success (fst r) = false ->
     Operations.data (fst r) = None /\
     (exists m, Operations.error (fst r) = Some m) /\
     Operations.trackingId (fst r) =
       Some (generateTrackingId (Operations.logDraw env)) /\
     (exists kept entry,
         Operations.errorTracker (snd r) = (kept ++ [entry])%list /\
         oe_trackingId entry = generateTrackingId (Operations.logDraw env) /\
         oe_operation entry = "createPayment") /\
     Operations.unifiedStore (snd r) = Operations.unifiedStore w0 /\
     Operations.auditLogger (snd r) = Operations.auditLogger w0 /\
     Operations.paymentCache (snd r) = Operations.paymentCache w0) /\
    (Operations.success (fst r) = true ->
     Operations.errorTracker (snd r) = Operations.errorTracker w0)).
  { intros thrown w0. cbv zeta. unfold Operations.caught.
    cbn. split; [|discriminate]. intros _.
    repeat split; eauto. apply (Hlog _ _ _ (Some thrown)). }
  cbv zeta. unfold Operations.createPayment.
  destruct (RateLimiter.check _ _ _ _) as [rateLimitCheck attempts].
  destruct (RateLimiter.allowed rateLimitCheck); cbn [negb];
    [|apply (Hdenied _ _ (Operations.withRateLimiter w attempts))].
  destruct (InputValidator.valid (InputValidator.validateAmount amount)) eqn:Ha;
    cbn [negb].
  2:{ destruct (validateAmount_error amount Ha) as [m ->].
      apply (Hdenied _ _ (Operations.withRateLimiter w attempts)). }
  destruct (InputValidator.valid (InputValidator.validateNote note)) eqn:Hn;
    cbn [negb].
  2:{ destruct (validateNote_error note Hn) as [m ->].
      apply (Hdenied _ _ (Operations.withRateLimiter w attempts)). }
  destruct (passed (SecurityGuard.preOperationCheck _ _ _ _)) eqn:Hs; cbn [negb].
  2:{ destruct (preOperationCheck_reason _ _ _ _ Hs) as [m Hm].
      cbn [Operations.unifiedStore Operations.withRateLimiter] in Hm |- *.
      rewrite Hm.
      apply (Hdenied _ _ (Operations.withRateLimiter w attempts)). }
  destruct (Operations.serverPayment (Operations.reply env)) as [thrown|sp];
    [apply (Hcaught _ (Operations.withRateLimiter w attempts))|].
  destruct (Store.createPaymentWithId _ _ _ _ _) as [[thrown|payment] store];
    [apply (Hcaught _ (Operations.withRateLimiter w attempts))|].
  unfold AuditLogger.log. cbn. split; [discriminate|reflexivity].
Qed.

Section CreateSaturation.

Lemma createPayments_rateLimiter calls (w : Operations.World) :
  Operations.rateLimiter (snd (Operations.createPayments calls w)) =
  snd (RateLimiter.checks
         (List.map (fun c => Operations.rateClock (fst (fst c))) calls)
         "create_payment" Operations.RATE_LIMITS_CREATE_PAYMENT
         (Operations.rateLimiter w)).
Proof.
  revert w. induction calls as [|[[env amount] note] calls IH]; intros w.
  - reflexivity.
  - cbn [Operations.createPayments List.map RateLimiter.checks fst].
    pose proof (createPayment_rateLimiter env amount note w) as Hr.
    destruct (Operations.createPayment env amount note w) as [result w1].
    cbn [snd] in Hr. specialize (IH w1).
    destruct (Operations.createPayments calls w1) as [results w2].
    cbn [snd] in IH |- *. rewrite IH, Hr.
    destruct (RateLimiter.check _ _ _ _) as [r a]. cbn [snd].
    now destruct (RateLimiter.checks _ _ _ a).
Qed.

(** X25. Every [createPayment] call counts against the rate limit, also one
    that is then rejected for its amount or note or that fails at the
    backend.  When every attempt on record is more than a minute old (so
    also when none is on record), then after any ten calls within one
    minute an eleventh call in that minute is refused with "Too many
    requests. Please wait a moment." and changes neither the store nor the
    recorded attempts, which are the times of the ten calls. *)
Theorem createPayment_eleventh_call_refused
    (calls : list (Operations.Env * JsNumber.t * string))
    (env : Operations.Env) (amount : JsNumber.t) (note : string)
    (w : Operations.World) (start : Z) :
  (forall t, In t (RateLimiter.recorded "create_payment" (Operations.rateLimiter w)) ->
     t <= start - 60000) ->
  length calls = 10%nat ->
  (forall c, In c calls ->
     start <= Operations.rateClock (fst (fst c)) < start + 60000) ->
  start <= Operations.rateClock env < start + 60000 ->
  let w10 := snd (Operations.createPayments calls w) in
  let r := Operations.createPayment env amount note w10 in
  Operations.success (fst r) = false /\
  Operations.error (fst r) = Some "Too many requests. Please wait a moment." /\
  Operations.unifiedStore (snd r) = Operations.unifiedStore w10 /\
  RateLimiter.recorded "create_payment" (Operations.rateLimiter (snd r)) =
    List.map (fun c => Operations.rateClock (fst (fst c))) calls.
Proof.
  intros Hold Hlen Hwin Hnow w10 r.
  set (times := List.map (fun c => Operations.rateClock (fst (fst c))) calls).
  assert (Htimes : forall t, In t times -> start <= t < start + 60000).
  { intros t Ht. apply in_map_iff in Ht as (c & <- & Hc). now apply Hwin. }
  assert (Hrec : RateLimiter.recorded "create_payment" (Operations.rateLimiter w10)
                 = times).
  { subst w10. rewrite createPayments_rateLimiter. fold times.
    assert (Hl : length times = 10%nat)
      by (subst times; now rewrite List.length_map).
    destruct times as [|first later]; [discriminate|].
    cbn [RateLimiter.checks].
    destruct (check_window_expired "create_payment"
                Operations.RATE_LIMITS_CREATE_PAYMENT first
                (Operations.rateLimiter w)) as [_ Hfirst].
    { intros t Ht. specialize (Hold t Ht).
      assert (start <= first < start + 60000) by (apply Htimes; now left).
      cbn. lia. }
    cbn [Operations.RATE_LIMITS_CREATE_PAYMENT maxAttempts Z.ltb Z.compare]
      in Hfirst.
    destruct (RateLimiter.check first _ _ _) as [answer attempts].
    cbn [snd] in Hfirst.
    destruct (checks_while_room "create_payment"
                Operations.RATE_LIMITS_CREATE_PAYMENT start later attempts)
      as [_ Hr].
    - rewrite Hfirst. exact Htimes.
    - rewrite Hfirst. cbn in Hl |- *. lia.
    - destruct (RateLimiter.checks later _ _ attempts) as [answers final].
      cbn [snd] in Hr |- *. now rewrite Hr, Hfirst. }
  destruct (check_window_kept "create_payment"
              Operations.RATE_LIMITS_CREATE_PAYMENT (Operations.rateClock env)
              (Operations.rateLimiter w10)) as [Hal Hkeep].
  { rewrite Hrec. intros t Ht. specialize (Htimes t Ht). cbn. lia. }
  rewrite Hrec in Hal, Hkeep.
  assert (Hfull : (Z.of_nat (length times)
                   <? maxAttempts Operations.RATE_LIMITS_CREATE_PAYMENT) = false).
  { subst times. rewrite List.length_map, Hlen. reflexivity. }
  rewrite Hfull in Hal, Hkeep.
  subst r. unfold Operations.createPayment in *.
  destruct (RateLimiter.check _ _ _ _) as [rateLimitCheck attempts].
  cbn [fst snd] in Hal, Hkeep. rewrite Hal in *. cbn [negb] in *.
  unfold Operations.denied in *. cbn in *.
  repeat split. exact Hkeep.
Qed.

End CreateSaturation.

(** * Properties of payment execution *)

Section Execute.
Implicit Types (w : Execution.World) (p : Execution.Payment).

(** The update of a record that the id resolves to and that is not paid. *)
Lemma updatePaymentStatus_open {Num} (st : Store.t Num) now i s tx q :
  Store.getPayment i st = Some q -> Payment.status q <> PAID ->
  fst (Store.updatePaymentStatus now i s tx st) = true /\
  Store.getPayment i (snd (Store.updatePaymentStatus now i s tx st))
    = Some (Store.transition now s tx q).
Proof.
  intros Hg Hs. unfold Store.updatePaymentStatus. rewrite Hg.
  destruct (PaymentStatus_eqb (Payment.status q) PAID) eqn:E.
  { apply PaymentStatus_eqb_eq in E. contradiction. }
  split; [reflexivity|]. cbn [snd].
  apply getPayment_Some in Hg as [Hf Hm].
  pose proof (find_hasId_Some _ _ _ Hf) as [_ Hid].
  apply getPayment_Some. split.
  - cbn. apply find_updateFirst; [exact Hf|].
    unfold Store.hasId. destruct s; simpl; rewrite Hid; apply String.eqb_refl.
  - change (Store.currentMerchant _) with (Store.currentMerchant st).
    destruct s; exact Hm.
Qed.

Lemma logError_store d operation error details w :
  Execution.unifiedStore (snd (Execution.logError d operation error details w))
    = Execution.unifiedStore w /\
  Execution.auditLogger (snd (Execution.logError d operation error details w))
    = Execution.auditLogger w /\
  fst (Execution.logError d operation error details w) = generateTrackingId d.
Proof. now repeat split. Qed.

Lemma auditLog_store d operation details outcome w :
  Execution.unifiedStore (snd (Execution.auditLog d operation details outcome w))
    = Execution.unifiedStore w /\
  Execution.errorTracker (snd (Execution.auditLog d operation details outcome w))
    = Execution.errorTracker w /\
  Execution.rateLimiter (snd (Execution.auditLog d operation details outcome w))
    = Execution.rateLimiter w.
Proof. now repeat split. Qed.

(** What the synchronous part does once the rate limiter and the id check
    let the call through. *)
Lemma start_admitted clock d paymentId w :
  Execution.rateAllows clock paymentId w = true ->
  InputValidator.valid (InputValidator.validatePaymentId paymentId) = true ->
  let r := Execution.start clock d paymentId w in
  Execution.unifiedStore (snd r) = Execution.unifiedStore w /\
  match Store.getPayment paymentId (Execution.unifiedStore w) with
  | None => fst r = inl (Execution.OnError "Payment not found" (generateTrackingId d))
  | Some q =>
      if PaymentStatus_eqb (Payment.status q) PAID
      then fst r = inl (Execution.OnError "This payment has already been completed"
                                          (generateTrackingId d))
      else fst r = inr q /\
           Execution.errorTracker (snd r) = Execution.errorTracker w
  end.
Proof.
  unfold Execution.rateAllows. intros Hrate Hvalid. cbv zeta. unfold Execution.start.
  destruct (RateLimiter.check _ _ _ _) as [rateLimitCheck attempts].
  cbn [fst] in Hrate. rewrite Hrate, Hvalid.
  cbn [negb Execution.unifiedStore Execution.withRateLimiter].
  destruct (Store.getPayment paymentId (Execution.unifiedStore w)) as [q|].
  - destruct (PaymentStatus_eqb (Payment.status q) PAID); now repeat split.
  - now repeat split.
Qed.

End Execute.

Section ExecuteOutcomes.
Implicit Types (w : Execution.World) (env : Execution.Env).

Lemma executePayment_guards_aux env paymentId w :
  Execution.rateAllows (Execution.rateClock env) paymentId w = true ->
  InputValidator.valid (InputValidator.validatePaymentId paymentId) = true ->
  let r := Execution.executePayment env paymentId w in
  let trk := generateTrackingId (Execution.startDraw env) in
  (Store.getPayment paymentId (Execution.unifiedStore w) = None ->
   fst r = Some (Execution.OnError "Payment not found" trk) /\
   Execution.unifiedStore (snd r) = Execution.unifiedStore w) /\
  (forall q,
      Store.getPayment paymentId (Execution.unifiedStore w) = Some q ->
      Payment.status q = PAID ->
      fst r = Some (Execution.OnError "This payment has already been completed" trk) /\
      Execution.unifiedStore (snd r) = Execution.unifiedStore w).
Proof.
  intros Hrate Hvalid. cbv zeta.
  pose proof (start_admitted _ (Execution.startDraw env) _ _ Hrate Hvalid) as Hs.
  cbv zeta in Hs. destruct Hs as [Hstore Hs].
  unfold Execution.executePayment.
  destruct (Execution.start _ _ _ _) as [[callback|payment] w'];
    cbn [fst snd] in *.
  - split.
    + intros Hg. rewrite Hg in Hs. injection Hs as ->. split; [reflexivity|exact Hstore].
    + intros q Hg Hq. rewrite Hg, Hq in Hs. cbn in Hs. injection Hs as ->.
      split; [reflexivity|exact Hstore].
  - split.
    + intros Hg. rewrite Hg in Hs. discriminate.
    + intros q Hg Hq. rewrite Hg, Hq in Hs. cbn in Hs. discriminate.
Qed.

(** X26. The guards of [executePayment].  Once the rate limiter and the id
    check let the call through: an id that resolves to nothing for the
    active merchant (not stored, or stored for another merchant) is answered
    with [onError("Payment not found")], an id that resolves to a [PAID]
    record with [onError("This payment has already been completed")]; in
    both cases whatever the wallet would do is never asked for, and the
    store object is as before. *)
Theorem executePayment_guards env paymentId w :
  Execution.rateAllows (Execution.rateClock env) paymentId w = true ->
  InputValidator.valid (InputValidator.validatePaymentId paymentId) = true ->
  let r := Execution.executePayment env paymentId w in
  let trk := generateTrackingId (Execution.startDraw env) in
  (Store.getPayment paymentId (Execution.unifiedStore w) = None ->
   fst r = Some (Execution.OnError "Payment not found" trk) /\
   Execution.unifiedStore (snd r) = Execution.unifiedStore w) /\
  (forall q,
      Store.getPayment paymentId (Execution.unifiedStore w) = Some q ->
      Payment.status q = PAID ->
      fst r = Some (Execution.OnError "This payment has already been completed" trk) /\
      Execution.unifiedStore (snd r) = Execution.unifiedStore w).
Proof. exact (executePayment_guards_aux env paymentId w). Qed.

(** X27. Completion.  When the call is let through, the id resolves to a
    record that is not paid, and the wallet flow ends with a transaction id:
    [onSuccess(txid)] is called, and the id then resolves to that record as
    [PAID], stamped with the txid and the time of the callback.  A further
    [executePayment] for the id, as far as the rate limiter lets it through,
    is answered with "This payment has already been completed" and changes
    nothing in the store. *)
Theorem executePayment_completion env paymentId w q piPaymentId txid :
  Execution.rateAllows (Execution.rateClock env) paymentId w = true ->
  InputValidator.valid (InputValidator.validatePaymentId paymentId) = true ->
  Store.getPayment paymentId (Execution.unifiedStore w) = Some q ->
  Payment.status q <> PAID ->
  Execution.flow env = PiSdk.ReadyForServerCompletion piPaymentId txid ->
  let r := Execution.executePayment env paymentId w in
  let paid := Store.transition (Execution.endClock env) PAID (Some txid) q in
  fst r = Some (Execution.OnSuccess txid) /\
  Store.getPayment paymentId (Execution.unifiedStore (snd r)) = Some paid /\
  Payment.status paid = PAID /\ Payment.txid paid = Some txid /\
  Payment.paidAt paid = Some (Execution.endClock env) /\
  (forall env',
      Execution.rateAllows (Execution.rateClock env') paymentId (snd r) = true ->
      let r' := Execution.executePayment env' paymentId (snd r) in
      fst r' = Some (Execution.OnError "This payment has already been completed"
                       (generateTrackingId (Execution.startDraw env'))) /\
      Execution.unifiedStore (snd r') = Execution.unifiedStore (snd r)).
Proof.
  intros Hrate Hvalid Hget Hopen Hflow. cbv zeta.
  assert (Hmain :
    fst (Execution.executePayment env paymentId w) = Some (Execution.OnSuccess txid) /\
    Store.getPayment paymentId
      (Execution.unifiedStore (snd (Execution.executePayment env paymentId w)))
    = Some (Store.transition (Execution.endClock env) PAID (Some txid) q)).
  { pose proof (start_admitted _ (Execution.startDraw env) _ _ Hrate Hvalid) as Hs.
    cbv zeta in Hs. destruct Hs as [Hstore Hs]. rewrite Hget in Hs.
    destruct (PaymentStatus_eqb (Payment.status q) PAID) eqn:E.
    { apply PaymentStatus_eqb_eq in E. contradiction. }
    destruct Hs as [Hr _].
    unfold Execution.executePayment.
    destruct (Execution.start _ _ _ _) as [[callback|payment] w'];
      cbn [fst snd] in *; [discriminate|]. injection Hr as ->.
    rewrite Hflow. cbn [PiSdk.createPiPayment Execution.finish].
    rewrite <- Hstore in Hget.
    destruct (updatePaymentStatus_open (Execution.unifiedStore w')
                (Execution.endClock env) paymentId PAID (Some txid) q Hget Hopen)
      as [Hok Hupd].
    destruct (Store.updatePaymentStatus _ _ _ _ _) as [ok store].
    cbn [fst snd] in Hok, Hupd. subst ok.
    unfold Execution.auditLog. cbn. split; [reflexivity|exact Hupd]. }
  destruct Hmain as [Hcb Hpaid].
  split; [exact Hcb|]. split; [exact Hpaid|].
  split; [reflexivity|]. split; [reflexivity|]. split; [reflexivity|].
  intros env' Hrate'. cbv zeta.
  destruct (executePayment_guards_aux env' paymentId _ Hrate' Hvalid) as [_ H].
  apply (H _ Hpaid). reflexivity.
Qed.

End ExecuteOutcomes.

Section ExecuteFailures.
Implicit Types (w : Execution.World) (env : Execution.Env).

(** X28. Failure and cancellation.  When the call is let through for a
    record that is not paid and the wallet flow ends without a transaction
    (no SDK, the SDK throws or reports an error, the user cancels),
    [onError] is called with the wallet's message; the record becomes
    [CANCELLED] if the user cancelled and [FAILED] otherwise, keeps its
    payment time and txid, and stays open: a later [executePayment] for the
    id that the rate limiter lets through starts the wallet flow again. *)
Theorem executePayment_failure_allows_retry env paymentId w q error isCancelled :
  Execution.rateAllows (Execution.rateClock env) paymentId w = true ->
  InputValidator.valid (InputValidator.validatePaymentId paymentId) = true ->
  Store.getPayment paymentId (Execution.unifiedStore w) = Some q ->
  Payment.status q <> PAID ->
  PiSdk.createPiPayment (Execution.flow env) = PiSdk.Failure error isCancelled ->
  let r := Execution.executePayment env paymentId w in
  let status := if isCancelled then CANCELLED else FAILED in
  let closed := Store.transition (Execution.endClock env) status None q in
  fst r = Some (Execution.OnError error
                  (generateTrackingId (Execution.endDraw1 env))) /\
  Store.getPayment paymentId (Execution.unifiedStore (snd r)) = Some closed /\
  Payment.status closed = status /\
  Payment.paidAt closed = Payment.paidAt q /\ Payment.txid closed = Payment.txid q /\
  (forall clock d,
      Execution.rateAllows clock paymentId (snd r) = true ->
      fst (Execution.start clock d paymentId (snd r)) = inr closed).
Proof.
  intros Hrate Hvalid Hget Hopen Hflow. cbv zeta.
  assert (Hmain :
    fst (Execution.executePayment env paymentId w)
      = Some (Execution.OnError error (generateTrackingId (Execution.endDraw1 env))) /\
    Store.getPayment paymentId
      (Execution.unifiedStore (snd (Execution.executePayment env paymentId w)))
    = Some (Store.transition (Execution.endClock env)
              (if isCancelled then CANCELLED else FAILED) None q)).
  { pose proof (start_admitted _ (Execution.startDraw env) _ _ Hrate Hvalid) as Hs.
    cbv zeta in Hs. destruct Hs as [Hstore Hs]. rewrite Hget in Hs.
    destruct (PaymentStatus_eqb (Payment.status q) PAID) eqn:E.
    { apply PaymentStatus_eqb_eq in E. contradiction. }
    destruct Hs as [Hr _].
    unfold Execution.executePayment.
    destruct (Execution.start _ _ _ _) as [[callback|payment] w'];
      cbn [fst snd] in *; [discriminate|]. injection Hr as ->.
    rewrite Hflow. cbn [Execution.finish].
    rewrite <- Hstore in Hget.
    destruct (updatePaymentStatus_open (Execution.unifiedStore w')
                (Execution.endClock env) paymentId
                (if isCancelled then CANCELLED else FAILED) None q Hget Hopen)
      as [_ Hupd].
    destruct (Store.updatePaymentStatus _ _ _ _ _) as [ok store].
    cbn [snd] in Hupd.
    unfold Execution.auditLog, Execution.logError. cbn.
    split; [reflexivity|exact Hupd]. }
  destruct Hmain as [Hcb Hclosed].
  split; [exact Hcb|]. split; [exact Hclosed|].
  split; [now destruct isCancelled|].
  split; [now destruct isCancelled|]. split; [now destruct isCancelled|].
  intros clock d Hrate'.
  pose proof (start_admitted clock d _ _ Hrate' Hvalid) as Hs.
  cbv zeta in Hs. destruct Hs as [_ Hs]. rewrite Hclosed in Hs.
  destruct isCancelled; cbn in Hs; apply Hs.
Qed.

(** X29. The race the completion callback guards against.  If, by the time
    the wallet flow ends with a transaction id, the id resolves to a record
    that is already [PAID] (or to none), the callback does not report
    success: [onError("Payment was already completed by another
    transaction")] is called and the store is left as it is, so the earlier
    completion keeps its txid and payment time. *)
Theorem finish_after_completion_elsewhere now draw1 draw2 paymentId
    (payment : Execution.Payment) txid w :
  Store.getPayment paymentId (Execution.unifiedStore w) = None \/
  (exists q, Store.getPayment paymentId (Execution.unifiedStore w) = Some q /\
             Payment.status q = PAID) ->
  let r := Execution.finish now draw1 draw2 paymentId payment
             (PiSdk.Success txid) w in
  fst r = Some (Execution.OnError
                  "Payment was already completed by another transaction"
                  (generateTrackingId draw1)) /\
  Execution.unifiedStore (snd r) = Execution.unifiedStore w /\
  Execution.auditLogger (snd r) = Execution.auditLogger w.
Proof.
  intros Hclosed. cbv zeta. unfold Execution.finish.
  assert (Hrefused : Store.updatePaymentStatus now paymentId PAID (Some txid)
                       (Execution.unifiedStore w)
                     = (false, Execution.unifiedStore w)).
  { unfold Store.updatePaymentStatus.
    destruct Hclosed as [->|(q & -> & Hq)]; [reflexivity|]. now rewrite Hq. }
  rewrite Hrefused. cbn. now destruct w.
Qed.

End ExecuteFailures.

(** * Instances *)

Lemma creation_never_blocked_witness :
  Store.processingLocks
    (Store.run [Store.CreatePaymentWithId "pay-1" 5%Q "coffee" 1000;
                Store.UpdatePaymentStatus 2000 "pay-1" PAID (Some "abc")]
       Scenario.merchantA) = ∅.
Proof.
  destruct (creation_never_blocked
              [Store.CreatePaymentWithId "pay-1" 5%Q "coffee" 1000;
               Store.UpdatePaymentStatus 2000 "pay-1" PAID (Some "abc")]
              Scenario.merchantA eq_refl) as [H _].
  exact H.
Defined.

Lemma paid_record_persists_witness :
  In Scenario.paidRecord
    (payments (Store.state
       (Store.run [Store.CreatePaymentWithId "pay-1" 5%Q "coffee" 1000;
                   Store.UpdatePaymentStatus 3000 "pay-1" FAILED None;
                   Store.SetMasterEnabled true]
          Scenario.completed))).
Proof.
  apply (paid_record_persists
           [Store.CreatePaymentWithId "pay-1" 5%Q "coffee" 1000;
            Store.UpdatePaymentStatus 3000 "pay-1" FAILED None;
            Store.SetMasterEnabled true]
           Scenario.completed Scenario.paidRecord eq_refl).
  - left. reflexivity.
  - reflexivity.
Defined.

Lemma created_record_is_retrievable_witness :
  Store.getPayment "pay-1"
    (snd (Store.createPaymentWithId "pay-1" 5%Q "coffee" 1000 Scenario.completed))
  = Some (Payment.mk "pay-1" "merchant_A" 5%Q "coffee" PENDING 1000 None None).
Proof.
  destruct (created_record_is_retrievable Scenario.completed eq_refl) as [H _].
  destruct (H "pay-1" 5%Q "coffee" 1000) as (_ & Hget & _).
  exact Hget.
Defined.


Lemma snapshot_applied_empties_payments_witness :
  exists snapshot,
    fst (Store.runSaveTimer 5000 Store.Room ∅ MoreScenario.twoMerchants)
      !! Store.STORAGE_KEY = Some (Store.StateJson snapshot) /\
    Store.getAllPayments
      (Store.onStorage (Store.snapshotEvent snapshot) Scenario.completed) = [].
Proof.
  destruct (snapshot_applied_empties_payments MoreScenario.twoMerchants 5000 ∅
              Scenario.completed eq_refl eq_refl)
    as (snapshot & H1 & _ & _ & _ & H5).
  exists snapshot. split; assumption.
Defined.

Lemma session_switch_keeps_ledger_witness :
  Store.currentMerchant
    (Store.updateSession 6000 (MoreScenario.toMerchant "merchant_B")
       MoreScenario.twoMerchants) = "merchant_B".
Proof.
  destruct (session_switch_keeps_ledger MoreScenario.twoMerchants 6000
              (MoreScenario.toMerchant "merchant_B") "merchant_B" eq_refl)
    as (_ & H & _).
  - discriminate.
  - exact H.
Defined.

Lemma audit_log_bounded_witness :
  AuditLogger.getAuditById
    (fst (AuditLogger.log (OperationScenario.draw 1000) "createPayment"
            {| ad_paymentId := "pay-1"; ad_merchantId := "merchant_A";
               ad_amount := OperationScenario.five; ad_noteLength := 6 |}
            success_ None []))
    (snd (AuditLogger.log (OperationScenario.draw 1000) "createPayment"
            {| ad_paymentId := "pay-1"; ad_merchantId := "merchant_A";
               ad_amount := OperationScenario.five; ad_noteLength := 6 |}
            success_ None []))
  = Some {| ae_trackingId := generateTrackingId (OperationScenario.draw 1000);
            ae_timestamp := 1000; ae_operation := "createPayment";
            ae_userId := None;
            ae_details :=
              {| ad_paymentId := "pay-1"; ad_merchantId := "merchant_A";
                 ad_amount := OperationScenario.five; ad_noteLength := 6 |};
            ae_outcome := success_ |}.
Proof.
  destruct (audit_log_bounded (OperationScenario.draw 1000) "createPayment"
              {| ad_paymentId := "pay-1"; ad_merchantId := "merchant_A";
                 ad_amount := OperationScenario.five; ad_noteLength := 6 |}
              success_ None [] eq_refl) as (_ & _ & H & _).
  exact H.
Defined.

Lemma createPayment_success_witness :
  Operations.success (fst OperationScenario.afterFirst) = true /\
  Store.getPayment "pay-1"
    (Operations.unifiedStore (snd OperationScenario.afterFirst))
  = Some MoreScenario.pending.
Proof.
  destruct (createPayment_success
              (OperationScenario.envAt 1000 OperationScenario.replyPay1)
              OperationScenario.five "coffee" OperationScenario.world0
              {| Operations.sp_id := "pay-1"; Operations.sp_createdAt := 900 |}
              eq_refl eq_refl eq_refl) as (H1 & H2 & _).
  split; [|exact H2].
  change OperationScenario.afterFirst
    with (Operations.createPayment
            (OperationScenario.envAt 1000 OperationScenario.replyPay1)
            OperationScenario.five "coffee" OperationScenario.world0).
  now rewrite H1.
Defined.

Lemma createPayment_eleventh_call_refused_witness :
  Operations.error
    (fst (Operations.createPayment
            (OperationScenario.envAt 2000 OperationScenario.replyPay1)
            OperationScenario.five "coffee"
            (snd (Operations.createPayments MoreScenario.tenCalls
                    OperationScenario.world0))))
  = Some "Too many requests. Please wait a moment.".
Proof.
  assert (Hwin : forall c, In c MoreScenario.tenCalls ->
                   1000 <= Operations.rateClock (fst (fst c)) < 1000 + 60000).
  { intros c Hc. unfold MoreScenario.tenCalls in Hc.
    apply in_map_iff in Hc as (n & <- & Hn). apply in_seq in Hn. cbn. lia. }
  destruct (createPayment_eleventh_call_refused MoreScenario.tenCalls
              (OperationScenario.envAt 2000 OperationScenario.replyPay1)
              OperationScenario.five "coffee" OperationScenario.world0 1000
              (fun t (Ht : In t []) => False_ind _ Ht) eq_refl Hwin)
    as (_ & H & _).
  - cbn. lia.
  - exact H.
Defined.

Lemma executePayment_guards_witness :
  fst (Execution.executePayment
         (MoreScenario.execEnv 9000 PiSdk.Pending) "pay-1" MoreScenario.paidWorld)
  = Some (Execution.OnError "This payment has already been completed"
            (generateTrackingId (OperationScenario.draw 9000))).
Proof.
  destruct (executePayment_guards (MoreScenario.execEnv 9000 PiSdk.Pending)
              "pay-1" MoreScenario.paidWorld eq_refl eq_refl) as [_ H].
  destruct (H (Store.transition 4000 PAID (Some "tx-1") MoreScenario.pending)
              eq_refl eq_refl) as [Hcb _].
  exact Hcb.
Defined.

Lemma executePayment_completion_witness :
  fst (Execution.executePayment
         (MoreScenario.execEnv 3000 (PiSdk.ReadyForServerCompletion "pi-1" "tx-1"))
         "pay-1" MoreScenario.execWorld)
  = Some (Execution.OnSuccess "tx-1").
Proof.
  destruct (executePayment_completion
              (MoreScenario.execEnv 3000
                 (PiSdk.ReadyForServerCompletion "pi-1" "tx-1"))
              "pay-1" MoreScenario.execWorld MoreScenario.pending "pi-1" "tx-1"
              eq_refl eq_refl eq_refl) as (H & _).
  - discriminate.
  - reflexivity.
  - exact H.
Defined.

Lemma executePayment_failure_allows_retry_witness :
  Store.getPayment "pay-1"
    (Execution.unifiedStore
       (snd (Execution.executePayment
               (MoreScenario.execEnv 3000 (PiSdk.Cancel "pi-1"))
               "pay-1" MoreScenario.execWorld)))
  = Some (Store.transition 4000 CANCELLED None MoreScenario.pending).
Proof.
  destruct (executePayment_failure_allows_retry
              (MoreScenario.execEnv 3000 (PiSdk.Cancel "pi-1"))
              "pay-1" MoreScenario.execWorld MoreScenario.pending
              "Payment was cancelled" true
              eq_refl eq_refl eq_refl) as (_ & H & _).
  - discriminate.
  - reflexivity.
  - exact H.
Defined.

Lemma finish_after_completion_elsewhere_witness :
  fst (Execution.finish 9000 (OperationScenario.draw 9000)
         (OperationScenario.draw 9001) "pay-1" MoreScenario.pending
         (PiSdk.Success "tx-2") MoreScenario.paidWorld)
  = Some (Execution.OnError
            "Payment was already completed by another transaction"
            (generateTrackingId (OperationScenario.draw 9000))).
Proof.
  destruct (finish_after_completion_elsewhere 9000 (OperationScenario.draw 9000)
              (OperationScenario.draw 9001) "pay-1" MoreScenario.pending "tx-2"
              MoreScenario.paidWorld) as (H & _).
  - right. exists (Store.transition 4000 PAID (Some "tx-1") MoreScenario.pending).
    split; reflexivity.
  - exact H.
Defined.
